(** * buf sync: the public contract of the Syncer and the CLI driver

    A shallow embedding of

      - private/buf/bufsync/bufsync.go                         (package bufsync)
      - private/buf/cmd/buf/command/alpha/repo/reposync/reposync.go
                                                               (package reposync)

    Go values are embedded as follows.

      - A Go [error] is a value of the inductive type [error]; a possibly-nil
        [error] is an [option error].
      - A Go result [(T, error)] is a pair whose second component is an
        [option error].
      - A nil map or nil interface is [None].
      - A run-time panic (nil pointer dereference) is the outcome [panics].
      - [map[string]struct{}] is a [gset string].
      - The zap logger and the side effects of the command are explicit
        traces (lists of entries / events) threaded through the functions. *)

From Stdlib Require Import ZArith String Ascii List.
From stdpp Require Import base option list gmap sets strings sorting relations.

Local Open Scope string_scope.
Local Open Scope list_scope.

(** ** Go values shared by both packages *)

Module connect.

(** The status codes of connect-go. *)
Inductive Code : Type :=
  | CodeCanceled | CodeUnknown | CodeInvalidArgument | CodeDeadlineExceeded
  | CodeNotFound | CodeAlreadyExists | CodePermissionDenied
  | CodeResourceExhausted | CodeFailedPrecondition | CodeAborted
  | CodeOutOfRange | CodeUnimplemented | CodeInternal | CodeUnavailable
  | CodeDataLoss | CodeUnauthenticated.

#[global] Instance Code_eq_dec : EqDecision Code.
Proof. solve_decision. Defined.

End connect.
Export connect.

(** Error values.  [Error] is the [Error()] method, [Unwrap] the wrapped
    error ([fmt.Errorf] with [%w], [*connect.Error]).

      - [errorString]: [errors.New(text)] or [fmt.Errorf] without [%w];
      - [wrapError]: [fmt.Errorf] with one [%w]; [text] is the whole message;
      - [connectError] / [connectErrorOf]: a [*connect.Error] without / with an
        underlying error; [text] is its rendered message;
      - [invalidArgumentError]: [appcmd.NewInvalidArgumentError(text)]. *)
Inductive error : Type :=
  | errorString (text : string)
  | wrapError (text : string) (err : error)
  | connectError (code : Code) (text : string)
  | connectErrorOf (code : Code) (text : string) (err : error)
  | invalidArgumentError (text : string).

#[global] Instance error_eq_dec : EqDecision error.
Proof.
  intros x. induction x as [a|a e IH|c a|c a e IH|a]; intros [b|b f|d b|d b f|b];
    try (right; congruence).
  - destruct (decide (a = b)); [left|right]; congruence.
  - destruct (decide (a = b)), (IH f); [left|right..]; congruence.
  - destruct (decide (c = d)), (decide (a = b)); [left|right..]; congruence.
  - destruct (decide (c = d)), (decide (a = b)), (IH f); [left|right..]; congruence.
  - destruct (decide (a = b)); [left|right]; congruence.
Defined.

Definition Error (err : error) : string :=
  match err with
  | errorString text | wrapError text _ | connectError _ text
  | connectErrorOf _ text _ | invalidArgumentError text => text
  end.

Definition Unwrap (err : error) : option error :=
  match err with
  | wrapError _ e | connectErrorOf _ _ e => Some e
  | _ => None
  end.

(** [errors.Is(err, target)]: [err] or an error in its [Unwrap] chain equals
    [target]. *)
Fixpoint errors_Is (err target : error) : bool :=
  bool_decide (err = target) ||
  match err with
  | wrapError _ e | connectErrorOf _ _ e => errors_Is e target
  | _ => false
  end.

(** [connect.CodeOf(err)]: the code of the first [*connect.Error] in the
    chain of [err], [CodeUnknown] when there is none. *)
Fixpoint CodeOf (err : error) : Code :=
  match err with
  | connectError code _ | connectErrorOf code _ _ => code
  | wrapError _ e => CodeOf e
  | _ => CodeUnknown
  end.

(** [fmt.Errorf(prefix + "%w", err)]. *)
Definition Errorf_w (prefix : string) (err : error) : error :=
  wrapError (prefix +:+ Error err) err.

(** What a call does: it returns, or it panics. *)
Inductive outcome (A : Type) : Type :=
  | returns (a : A)
  | panics.
Arguments returns {A} a.
Arguments panics {A}.

(** The reply of a unary RPC: a response message, or an error. *)
Inductive rpc (A : Type) : Type :=
  | rpcResponse (Msg : A)
  | rpcError (err : error).
Arguments rpcResponse {A} Msg.
Arguments rpcError {A} err.

(** [bufmoduleref.ModuleIdentity]: the interface's methods as fields. *)
Record ModuleIdentity : Type := {
  Remote : string;
  Owner : string;
  Repository : string;
  IdentityString : string;
}.

#[global] Instance ModuleIdentity_eq_dec : EqDecision ModuleIdentity.
Proof. solve_decision. Defined.

(** ** Package git (the part of its interface the two files use) *)

(** [git.Hash]: a commit hash, with the results of its [Hex] and [String]
    methods. *)
Record Hash : Type := {
  Hex : string;
  Hash_String : string;
}.

#[global] Instance Hash_eq_dec : EqDecision Hash.
Proof. solve_decision. Defined.

#[global] Instance Hash_countable : Countable Hash.
Proof.
  refine (inj_countable' (fun h => (Hex h, Hash_String h))
                         (fun p => {| Hex := p.1; Hash_String := p.2 |}) _).
  by intros [].
Defined.

(** [git.Ident]: name, e-mail and timestamp (seconds) of an author or
    committer. *)
Record Ident : Type := {
  Name : string;
  Email : string;
  Timestamp : Z;
}.

(** [git.Commit]: its hash, the hashes of its parents, author, committer. *)
Record Commit : Type := {
  Commit_Hash : Hash;
  Parents : list Hash;
  Author : Ident;
  Committer : Ident;
}.

(** ** Package bufsync (bufsync.go) *)

Module bufsync.

(** [var ErrModuleDoesNotExist = errors.New("BSR module does not exist")] *)
Definition ErrModuleDoesNotExist : error :=
  errorString "BSR module does not exist".

(** [type Module interface]: [Dir()], [RemoteIdentity()] (an interface
    value, nil when absent) and [String()]. *)
Record Module_ : Type := {
  Dir : string;
  RemoteIdentity : option ModuleIdentity;
  Module_String : string;
}.

#[global] Instance Module_eq_dec : EqDecision Module_.
Proof. solve_decision. Defined.

(** [type ModuleCommit interface]: the bucket is represented by the
    content snapshot type [Bucket]. *)
Record ModuleCommit {Bucket : Type} : Type := {
  Identity : ModuleIdentity;
  Bucket_ : Bucket;
  Commit_ : Commit;
  Branch : string;
  Tags : list string;
}.
Arguments ModuleCommit Bucket : clear implicits.

(** [type ErrorHandler interface]: three hooks.  A hook may log, so it runs
    in the effect [M] of its implementation. *)
Record ErrorHandler {M : Type -> Type} : Type := {
  InvalidModuleConfig : Module_ -> Commit -> option error -> M (option error);
  BuildFailure : Module_ -> Commit -> option error -> M (option error);
  InvalidSyncPoint : Module_ -> string -> Hash -> option error -> M (option error);
}.
Arguments ErrorHandler M : clear implicits.

Section Options.

(** The collaborators are Go functions that take a [context.Context] and
    talk to the registry: they live in an effect [M]. *)
Context {M : Type -> Type}.

Definition SyncPointResolver : Type :=
  ModuleIdentity -> string -> M (option Hash * option error)%type.

Definition SyncedGitCommitChecker : Type :=
  ModuleIdentity -> gset string -> M (option (gset string) * option error)%type.

Definition ModuleDefaultBranchGetter : Type :=
  ModuleIdentity -> M (string * option error)%type.

(** The fields of [syncer] that the options of bufsync.go assign. *)
Record syncer : Type := {
  modulesToSync : list Module_;
  syncPointResolver : option SyncPointResolver;
  syncedGitCommitChecker : option SyncedGitCommitChecker;
  moduleDefaultBranchGetter : option ModuleDefaultBranchGetter;
  allBranches : bool;
}.

(** [type SyncerOption]: a function on a pointer to the syncer that
    returns an error; here, the error returned and the syncer after the
    call. *)
Definition SyncerOption : Type := syncer -> option error * syncer.

Definition SyncerWithModule (module : Module_) : SyncerOption := fun s =>
  if existsb
       (fun existingModule =>
          bool_decide (Module_String existingModule = Module_String module))
       (modulesToSync s)
  then (Some (errorString ("duplicate module " +:+ Module_String module)), s)
  else (None,
        {| modulesToSync := modulesToSync s ++ [module];
           syncPointResolver := syncPointResolver s;
           syncedGitCommitChecker := syncedGitCommitChecker s;
           moduleDefaultBranchGetter := moduleDefaultBranchGetter s;
           allBranches := allBranches s |}).

Definition SyncerWithResumption (resolver : SyncPointResolver) : SyncerOption :=
  fun s =>
    (None,
     {| modulesToSync := modulesToSync s;
        syncPointResolver := Some resolver;
        syncedGitCommitChecker := syncedGitCommitChecker s;
        moduleDefaultBranchGetter := moduleDefaultBranchGetter s;
        allBranches := allBranches s |}).

Definition SyncerWithGitCommitChecker (checker : SyncedGitCommitChecker) : SyncerOption :=
  fun s =>
    (None,
     {| modulesToSync := modulesToSync s;
        syncPointResolver := syncPointResolver s;
        syncedGitCommitChecker := Some checker;
        moduleDefaultBranchGetter := moduleDefaultBranchGetter s;
        allBranches := allBranches s |}).

Definition SyncerWithModuleDefaultBranchGetter (getter : ModuleDefaultBranchGetter) : SyncerOption :=
  fun s =>
    (None,
     {| modulesToSync := modulesToSync s;
        syncPointResolver := syncPointResolver s;
        syncedGitCommitChecker := syncedGitCommitChecker s;
        moduleDefaultBranchGetter := Some getter;
        allBranches := allBranches s |}).

Definition SyncerWithAllBranches : SyncerOption := fun s =>
  (None,
   {| modulesToSync := modulesToSync s;
      syncPointResolver := syncPointResolver s;
      syncedGitCommitChecker := syncedGitCommitChecker s;
      moduleDefaultBranchGetter := moduleDefaultBranchGetter s;
      allBranches := true |}).

(** The options that bufsync.go exports. *)
Inductive exported : SyncerOption -> Prop :=
  | exported_module module : exported (SyncerWithModule module)
  | exported_resumption resolver : exported (SyncerWithResumption resolver)
  | exported_checker checker : exported (SyncerWithGitCommitChecker checker)
  | exported_getter getter : exported (SyncerWithModuleDefaultBranchGetter getter)
  | exported_allBranches : exported SyncerWithAllBranches.

(** The exported options that set a collaborator or the mode. *)
Inductive setting : SyncerOption -> Prop :=
  | setting_resumption resolver : setting (SyncerWithResumption resolver)
  | setting_checker checker : setting (SyncerWithGitCommitChecker checker)
  | setting_getter getter : setting (SyncerWithModuleDefaultBranchGetter getter)
  | setting_allBranches : setting SyncerWithAllBranches.

End Options.

Arguments SyncPointResolver M : clear implicits.
Arguments SyncedGitCommitChecker M : clear implicits.
Arguments ModuleDefaultBranchGetter M : clear implicits.
Arguments syncer M : clear implicits.
Arguments SyncerOption M : clear implicits.

Section Constructors.

(** [newSyncableModule] and [newSyncer] are declared in files of the
    package other than bufsync.go: they are parameters here. *)
Context {M H : Type -> Type} {Repository Syncer : Type}.
Variable newSyncableModule : string -> option ModuleIdentity -> Module_ + error.
Variable newSyncer :
  Repository -> ErrorHandler H -> list (SyncerOption M) -> Syncer + error.

Definition NewModule (dir : string) (identityOverride : option ModuleIdentity)
  : Module_ + error :=
  newSyncableModule dir identityOverride.

Definition NewSyncer (repo : Repository) (errorHandler : ErrorHandler H)
    (options : list (SyncerOption M)) : Syncer + error :=
  newSyncer repo errorHandler options.

End Constructors.

End bufsync.

(** ** Registry messages (package registryv1alpha1), as far as they are read *)

Module registryv1alpha1.

Record GetGitSyncPointRequest : Type := {
  GetGitSyncPointRequest_Owner : string;
  GetGitSyncPointRequest_Repository : string;
  GetGitSyncPointRequest_Branch : string;
}.

Record GitSyncPoint : Type := {
  GitCommitHash : string;
  BsrCommitName : string;
}.

(** [SyncPoint] is a pointer field: [None] is the nil pointer. *)
Record GetGitSyncPointResponse : Type := {
  SyncPoint : option GitSyncPoint;
}.

Inductive LabelNamespace : Type :=
  | LABEL_NAMESPACE_UNSPECIFIED
  | LABEL_NAMESPACE_TAG
  | LABEL_NAMESPACE_BRANCH
  | LABEL_NAMESPACE_GIT_COMMIT.

Record GetLabelsInNamespaceRequest : Type := {
  RepositoryOwner : string;
  RepositoryName : string;
  LabelNamespace_ : LabelNamespace;
  LabelNames : list string;
}.

Record LabelName : Type := {
  LabelName_Namespace : LabelNamespace;
  LabelName_Name : string;
}.

(** [LabelName] is a pointer field. *)
Record Label : Type := {
  Label_LabelName : option LabelName;
}.

Record GetLabelsInNamespaceResponse : Type := {
  Labels : list Label;
}.

Record GetRepositoryByFullNameRequest : Type := {
  FullName : string;
}.

Record Repository_ : Type := {
  DefaultBranch : string;
}.

(** [Repository] is a pointer field. *)
Record GetRepositoryByFullNameResponse : Type := {
  Response_Repository : option Repository_;
}.

(** The messages of [push] and [create].  The manifest and the blobs are
    values of the types that package bufmanifest produces. *)
Record GitIdentity : Type := {
  GitIdentity_Name : string;
  GitIdentity_Email : string;
  GitIdentity_Time : Z;
}.

Record SyncGitCommitRequest {ProtoManifest ProtoBlob : Type} : Type := {
  SyncGitCommitRequest_Owner : string;
  SyncGitCommitRequest_Repository : string;
  SyncGitCommitRequest_Manifest : ProtoManifest;
  SyncGitCommitRequest_Blobs : list ProtoBlob;
  SyncGitCommitRequest_Hash : string;
  SyncGitCommitRequest_Branch : string;
  SyncGitCommitRequest_Tags : list string;
  SyncGitCommitRequest_Author : GitIdentity;
  SyncGitCommitRequest_Commiter : GitIdentity;
}.
Arguments SyncGitCommitRequest ProtoManifest ProtoBlob : clear implicits.

(** [SyncPoint] is a pointer field. *)
Record SyncGitCommitResponse : Type := {
  SyncGitCommitResponse_SyncPoint : option GitSyncPoint;
}.

Record CreateRepositoryByFullNameRequest {Visibility : Type} : Type := {
  CreateRepositoryByFullNameRequest_FullName : string;
  CreateRepositoryByFullNameRequest_Visibility : Visibility;
}.
Arguments CreateRepositoryByFullNameRequest Visibility : clear implicits.

End registryv1alpha1.

(** The generated clients: what the registry answers to a request. *)
Module registryv1alpha1connect.
Import registryv1alpha1.

Record SyncServiceClient : Type := {
  GetGitSyncPoint : GetGitSyncPointRequest -> rpc GetGitSyncPointResponse;
}.

Record LabelServiceClient : Type := {
  GetLabelsInNamespace : GetLabelsInNamespaceRequest -> rpc GetLabelsInNamespaceResponse;
}.

Record RepositoryServiceClient : Type := {
  GetRepositoryByFullName :
    GetRepositoryByFullNameRequest -> rpc GetRepositoryByFullNameResponse;
}.

End registryv1alpha1connect.

(** ** The zap logger: the entries written so far *)

Module zap.

Inductive Level : Type := DebugLevel | InfoLevel | WarnLevel | ErrorLevel.

(** [zap.Stringer(key, v)] holds the string of [v]; [zap.Error(err)]. *)
Inductive Field : Type :=
  | Stringer (key : string) (value : string)
  | Error_ (err : option error).

Record Entry : Type := {
  Entry_Level : Level;
  Entry_Message : string;
  Entry_Fields : list Field;
}.

(** A function that writes to the logger. *)
Definition Logging (A : Type) : Type := list Entry -> A * list Entry.

Definition Warn (msg : string) (fields : list Field) : Logging unit :=
  fun log => (tt, log ++ [{| Entry_Level := WarnLevel; Entry_Message := msg;
                             Entry_Fields := fields |}]).

End zap.

(** ** Package reposync (reposync.go) *)

Module reposync.
Import registryv1alpha1 registryv1alpha1connect.

Definition errorFormatFlagName : string := "error-format".
Definition moduleFlagName : string := "module".
Definition createFlagName : string := "create".
Definition createVisibilityFlagName : string := "create-visibility".
Definition allBranchesFlagName : string := "all-branches".

Record flags : Type := {
  ErrorFormat : string;
  Modules : list string;
  Create : bool;
  CreateVisibility : string;
  AllBranches : bool;
}.

(** [strings.IndexRune(s, r)] for an ASCII rune: the index of the first
    byte equal to [r], or -1. *)
Fixpoint IndexRune (s : string) (r : ascii) : Z :=
  match s with
  | EmptyString => (-1)%Z
  | String c s' =>
      if Ascii.eqb c r then 0%Z
      else let i := IndexRune s' r in
           if (i =? -1)%Z then (-1)%Z else (i + 1)%Z
  end.

(** [s[:i]] and [s[i:]]. *)
Definition sliceTo (s : string) (i : Z) : string :=
  substring 0 (Z.to_nat i) s.
Definition sliceFrom (s : string) (i : Z) : string :=
  substring (Z.to_nat i) (String.length s - Z.to_nat i) s.

(** What the command does to the outside, in order. *)
Inductive event : Type :=
  | EvLogInfo (msg : string)
  | EvOpenRepository
  | EvCloseRepository
  | EvNewConnectClientConfig
  | EvNewSyncer
  | EvSync.

#[global] Instance event_eq_dec : EqDecision event.
Proof. solve_decision. Defined.

(** A label of a reply names a hash outside the candidates; a label
    carries its name (its [LabelName] pointer is not nil). *)
Definition unexpected (commitHashes : gset string) (label : Label) : Prop :=
  ∃ name, Label_LabelName label = Some name ∧ LabelName_Name name ∉ commitHashes.

Definition named (label : Label) : Prop := is_Some (Label_LabelName label).

(** *** The collaborators handed to the Syncer *)

Section Collaborators.

(** [%q] and [%v] of package fmt; [git.NewHashFromHex]; the client
    configuration and [connectclient.Make] for each service. *)
Variable quote : string -> string.
Variable formatHashes : gset string -> string.
Variable NewHashFromHex : string -> Hash + error.
Context {ClientConfig : Type}.
Variable MakeSyncService : ClientConfig -> string -> SyncServiceClient.
Variable MakeLabelService : ClientConfig -> string -> LabelServiceClient.
Variable MakeRepositoryService : ClientConfig -> string -> RepositoryServiceClient.

Definition syncPointResolver (clientConfig : ClientConfig)
  : bufsync.SyncPointResolver outcome :=
  fun module branch =>
    let service := MakeSyncService clientConfig (Remote module) in
    match GetGitSyncPoint service
            {| GetGitSyncPointRequest_Owner := Owner module;
               GetGitSyncPointRequest_Repository := Repository module;
               GetGitSyncPointRequest_Branch := branch |} with
    | rpcError err =>
        if bool_decide (CodeOf err = CodeNotFound)
        then returns (None, None)
        else returns (None, Some (Errorf_w "get git sync point: " err))
    | rpcResponse Msg =>
        match SyncPoint Msg with
        | None => panics
        | Some sp =>
            match NewHashFromHex (GitCommitHash sp) with
            | inr err =>
                returns (None,
                         Some (Errorf_w ("invalid sync point from BSR "
                                         +:+ quote (GitCommitHash sp) +:+ ": ") err))
            | inl hash => returns (Some hash, None)
            end
        end
    end.

(** The loop over [res.Msg.Labels] of [syncGitCommitChecker]. *)
Fixpoint syncedHashesOfLabels (commitHashes : gset string) (labels : list Label)
    (syncedHashes : gset string)
  : outcome (option (gset string) * option error) :=
  match labels with
  | [] => returns (Some syncedHashes, None)
  | label :: labels' =>
      match Label_LabelName label with
      | None => panics
      | Some name =>
          let syncedHash := LabelName_Name name in
          if bool_decide (syncedHash ∈ commitHashes)
          then syncedHashesOfLabels commitHashes labels' ({[ syncedHash ]} ∪ syncedHashes)
          else returns (None,
                        Some (errorString ("received unexpected synced hash "
                                           +:+ quote syncedHash +:+ ", expected "
                                           +:+ formatHashes commitHashes)))
      end
  end.

Definition syncGitCommitChecker (clientConfig : ClientConfig)
  : bufsync.SyncedGitCommitChecker outcome :=
  fun module commitHashes =>
    let service := MakeLabelService clientConfig (Remote module) in
    match GetLabelsInNamespace service
            {| RepositoryOwner := Owner module;
               RepositoryName := Repository module;
               LabelNamespace_ := LABEL_NAMESPACE_GIT_COMMIT;
               LabelNames := elements commitHashes |} with
    | rpcError err =>
        if bool_decide (CodeOf err = CodeNotFound)
        then returns (None, None)
        else returns (None, Some (Errorf_w "get labels in namespace: " err))
    | rpcResponse Msg => syncedHashesOfLabels commitHashes (Labels Msg) ∅
    end.

Definition defaultBranchGetter (clientConfig : ClientConfig)
  : bufsync.ModuleDefaultBranchGetter outcome :=
  fun module =>
    let service := MakeRepositoryService clientConfig (Remote module) in
    match GetRepositoryByFullName service
            {| FullName := Owner module +:+ "/" +:+ Repository module |} with
    | rpcError err =>
        if bool_decide (CodeOf err = CodeNotFound)
        then returns ("", Some bufsync.ErrModuleDoesNotExist)
        else returns ("", Some (Errorf_w ("get repository by full name "
                                          +:+ quote (IdentityString module) +:+ ": ") err))
    | rpcResponse Msg =>
        match Response_Repository Msg with
        | None => panics
        | Some repository => returns (DefaultBranch repository, None)
        end
    end.

End Collaborators.

(** *** The error handler *)

Section Handler.

(** [git.ErrObjectNotFound], a variable of package git. *)
Variable ErrObjectNotFound : error.

Definition BuildFailure (module : bufsync.Module_) (commit : Commit)
    (err : option error) : zap.Logging (option error) :=
  fun log =>
    let '(_, log) :=
      zap.Warn "module build failure"
        [zap.Stringer "commit" (Hash_String (Commit_Hash commit));
         zap.Stringer "module" (bufsync.Module_String module);
         zap.Error_ err] log in
    (None, log).

Definition InvalidModuleConfig (module : bufsync.Module_) (commit : Commit)
    (err : option error) : zap.Logging (option error) :=
  fun log =>
    let '(_, log) :=
      zap.Warn "invalid module config"
        [zap.Stringer "commit" (Hash_String (Commit_Hash commit));
         zap.Stringer "module" (bufsync.Module_String module);
         zap.Error_ err] log in
    (None, log).

Definition InvalidSyncPoint (module : bufsync.Module_) (branch : string)
    (syncPoint : Hash) (err : option error) : zap.Logging (option error) :=
  fun log =>
    match err with
    | Some e =>
        if errors_Is e ErrObjectNotFound
        then (Some (errorString ("last synced commit " +:+ Hash_String syncPoint
                                 +:+ " was not found for module "
                                 +:+ bufsync.Module_String module
                                 +:+ "; did you rebase?")), log)
        else (err, log)
    | None => (err, log)
    end.

Definition newErrorHandler : bufsync.ErrorHandler zap.Logging :=
  {| bufsync.InvalidModuleConfig := InvalidModuleConfig;
     bufsync.BuildFailure := BuildFailure;
     bufsync.InvalidSyncPoint := InvalidSyncPoint |}.

End Handler.

(** *** The command *)

Section Command.

(** Functions of other packages, and what the outside answers:
    [fmt]'s [%q] and [%v], [git.NewHashFromHex], [git.ErrObjectNotFound],
    [connectclient.Make], [bufcli.ValidateErrorFormatFlag],
    [bufcli.VisibilityFlagToVisibility], [git.OpenRepository],
    [bufcli.NewConnectClientConfig], [bufmoduleref.ModuleIdentityForString],
    [normalpath.Normalize], [newSyncableModule] and [newSyncer] of package
    bufsync.  [Sync syncer createWithVisibility] is the result of
    [syncer.Sync] with the closure of [sync] that pushes every module
    commit ([pushOrCreate] under [createWithVisibility]) and prints one
    line for it. *)
Variable quote : string -> string.
Variable formatHashes : gset string -> string.
Variable NewHashFromHex : string -> Hash + error.
Variable ErrObjectNotFound : error.
Context {ClientConfig Visibility GitRepository Syncer : Type}.
Variable MakeSyncService : ClientConfig -> string -> SyncServiceClient.
Variable MakeLabelService : ClientConfig -> string -> LabelServiceClient.
Variable MakeRepositoryService : ClientConfig -> string -> RepositoryServiceClient.
Variable ValidateErrorFormatFlag : string -> string -> option error.
Variable VisibilityFlagToVisibility : string -> Visibility + error.
Variable OpenRepository : GitRepository + error.
Variable NewConnectClientConfig : ClientConfig + error.
Variable ModuleIdentityForString : string -> ModuleIdentity + error.
Variable Normalize : string -> string.
Variable newSyncableModule : string -> option ModuleIdentity -> bufsync.Module_ + error.
Variable newSyncer :
  GitRepository -> bufsync.ErrorHandler zap.Logging ->
  list (bufsync.SyncerOption outcome) -> Syncer + error.
Variable Sync : Syncer -> string -> option error.

(** The loop of [sync] over the module arguments: every argument adds one
    [SyncerWithModule] option. *)
Fixpoint moduleOptions (modules : list string)
    (syncerOptions : list (bufsync.SyncerOption outcome))
  : list (bufsync.SyncerOption outcome) + error :=
  match modules with
  | [] => inl syncerOptions
  | module :: modules' =>
      let colon := IndexRune module ":"%char in
      if (colon =? -1)%Z
      then inr (invalidArgumentError
                  ("module " +:+ quote module +:+ " is missing an identity"))
      else
        match ModuleIdentityForString (sliceFrom module (colon + 1)) with
        | inr err => inr (Errorf_w "module identity: " err)
        | inl moduleIdentityOverride =>
            let module := Normalize (sliceTo module colon) in
            match bufsync.NewModule newSyncableModule module
                    (Some moduleIdentityOverride) with
            | inr err => inr (Errorf_w "prepare module for sync: " err)
            | inl syncModule =>
                moduleOptions modules'
                  (syncerOptions ++ [bufsync.SyncerWithModule syncModule])
            end
        end
  end.

Definition sync (modules : list string) (createWithVisibility : string)
    (allBranches : bool) : list event * option error :=
  if (length modules =? 0)%nat
  then ([EvLogInfo "no modules to sync"], None)
  else
    match OpenRepository with
    | inr err => ([EvOpenRepository], Some (Errorf_w "open repository: " err))
    | inl repo =>
        (* defer repo.Close() *)
        let '(events, ret) :=
          match NewConnectClientConfig with
          | inr err =>
              ([EvNewConnectClientConfig],
               Some (Errorf_w "create connect client " err))
          | inl clientConfig =>
              let syncerOptions :=
                [bufsync.SyncerWithResumption
                   (syncPointResolver quote NewHashFromHex MakeSyncService clientConfig);
                 bufsync.SyncerWithGitCommitChecker
                   (syncGitCommitChecker quote formatHashes MakeLabelService clientConfig);
                 bufsync.SyncerWithModuleDefaultBranchGetter
                   (defaultBranchGetter quote MakeRepositoryService clientConfig)] in
              let syncerOptions :=
                if allBranches
                then syncerOptions ++ [bufsync.SyncerWithAllBranches]
                else syncerOptions in
              match moduleOptions modules syncerOptions with
              | inr err => ([EvNewConnectClientConfig], Some err)
              | inl syncerOptions =>
                  match bufsync.NewSyncer newSyncer repo
                          (newErrorHandler ErrObjectNotFound) syncerOptions with
                  | inr err =>
                      ([EvNewConnectClientConfig; EvNewSyncer],
                       Some (Errorf_w "new syncer: " err))
                  | inl syncer =>
                      ([EvNewConnectClientConfig; EvNewSyncer; EvSync],
                       Sync syncer createWithVisibility)
                  end
              end
          end in
        (EvOpenRepository :: events ++ [EvCloseRepository], ret)
    end.

Definition run (flags : flags) : list event * option error :=
  match ValidateErrorFormatFlag (ErrorFormat flags) errorFormatFlagName with
  | Some err => ([], Some err)
  | None =>
      let proceed :=
        sync (Modules flags) (CreateVisibility flags) (AllBranches flags) in
      if negb (bool_decide (CreateVisibility flags = ""))
      then
        if negb (Create flags)
        then ([], Some (invalidArgumentError
                          ("Cannot set --" +:+ createVisibilityFlagName
                           +:+ " without --" +:+ createFlagName +:+ ".")))
        else
          match VisibilityFlagToVisibility (CreateVisibility flags) with
          | inr err => ([], Some (invalidArgumentError (Error err)))
          | inl _ => proceed
          end
      else
        if Create flags
        then ([], Some (invalidArgumentError
                          ("--" +:+ createVisibilityFlagName
                           +:+ " is required if --" +:+ createFlagName
                           +:+ " is set.")))
        else proceed
  end.

End Command.

(** *** Pushing a module commit *)

Section Push.

(** The registry behind the client configuration: an RPC reads and changes
    its state [Registry].  [SyncGitCommit] and [CreateRepositoryByFullName]
    are the methods of the clients that [connectclient.Make] returns for a
    remote; [manifest.NewFromBucket], [bufmanifest.ToProtoManifestAndBlobs],
    [bufcli.VisibilityFlagToVisibility] and the message of
    [connect.NewError] are functions of other packages; [Stderr_Write] is
    [container.Stderr().Write] on the state [Stderr] of the stream. *)
Context {ClientConfig GitRepository Visibility Registry Stderr : Type}.
Context {Bucket Manifest BlobSet ProtoManifest ProtoBlob : Type}.
Variable SyncGitCommit :
  ClientConfig -> string -> SyncGitCommitRequest ProtoManifest ProtoBlob ->
  Registry -> rpc SyncGitCommitResponse * Registry.
Variable CreateRepositoryByFullName :
  ClientConfig -> string -> CreateRepositoryByFullNameRequest Visibility ->
  Registry -> rpc unit * Registry.
Variable NewFromBucket : Bucket -> (Manifest * BlobSet) + error.
Variable ToProtoManifestAndBlobs :
  Manifest -> BlobSet -> (ProtoManifest * list ProtoBlob) + error.
Variable VisibilityFlagToVisibility : string -> Visibility + error.
Variable connectErrorText : Code -> error -> string.
Variable Stderr_Write : string -> Stderr -> option error * Stderr.

(** An RPC that was issued, with the remote it went to and its reply. *)
Inductive call : Type :=
  | CallSyncGitCommit (remote : string)
      (req : SyncGitCommitRequest ProtoManifest ProtoBlob)
      (reply : rpc SyncGitCommitResponse)
  | CallCreateRepositoryByFullName (remote : string)
      (req : CreateRepositoryByFullNameRequest Visibility)
      (reply : rpc unit).

(** The registry, and the RPCs issued so far. *)
Record remoteState : Type := {
  registry : Registry;
  calls : list call;
}.

Definition Remotely (A : Type) : Type := remoteState -> A * remoteState.

(** [connect.NewError(code, underlying)]. *)
Definition NewError (code : Code) (underlying : error) : error :=
  connectErrorOf code (connectErrorText code underlying) underlying.

Definition push (clientConfig : ClientConfig) (repo : GitRepository)
    (commit : Commit) (branch : string) (tags : list string)
    (moduleIdentity : ModuleIdentity) (moduleBucket : Bucket)
  : Remotely (option GitSyncPoint * option error) :=
  fun st =>
    match NewFromBucket moduleBucket with
    | inr err => ((None, Some err), st)
    | inl (m, blobSet) =>
        match ToProtoManifestAndBlobs m blobSet with
        | inr err => ((None, Some err), st)
        | inl (bucketManifest, blobs) =>
            let req :=
              {| SyncGitCommitRequest_Owner := Owner moduleIdentity;
                 SyncGitCommitRequest_Repository := Repository moduleIdentity;
                 SyncGitCommitRequest_Manifest := bucketManifest;
                 SyncGitCommitRequest_Blobs := blobs;
                 SyncGitCommitRequest_Hash := Hex (Commit_Hash commit);
                 SyncGitCommitRequest_Branch := branch;
                 SyncGitCommitRequest_Tags := tags;
                 SyncGitCommitRequest_Author :=
                   {| GitIdentity_Name := Name (Author commit);
                      GitIdentity_Email := Email (Author commit);
                      GitIdentity_Time := Timestamp (Author commit) |};
                 SyncGitCommitRequest_Commiter :=
                   {| GitIdentity_Name := Name (Committer commit);
                      GitIdentity_Email := Email (Committer commit);
                      GitIdentity_Time := Timestamp (Committer commit) |} |} in
            let '(resp, registry') :=
              SyncGitCommit clientConfig (Remote moduleIdentity) req (registry st) in
            let st' :=
              {| registry := registry';
                 calls := calls st
                          ++ [CallSyncGitCommit (Remote moduleIdentity) req resp] |} in
            match resp with
            | rpcError err => ((None, Some err), st')
            | rpcResponse Msg => ((SyncGitCommitResponse_SyncPoint Msg, None), st')
            end
        end
    end.

Definition create (clientConfig : ClientConfig) (moduleIdentity : ModuleIdentity)
    (visibility : string) : Remotely (option error) :=
  fun st =>
    match VisibilityFlagToVisibility visibility with
    | inr err => (Some err, st)
    | inl visiblity =>
        let fullName := Owner moduleIdentity +:+ "/" +:+ Repository moduleIdentity in
        let req :=
          {| CreateRepositoryByFullNameRequest_FullName := fullName;
             CreateRepositoryByFullNameRequest_Visibility := visiblity |} in
        let '(resp, registry') :=
          CreateRepositoryByFullName clientConfig (Remote moduleIdentity) req
            (registry st) in
        let st' :=
          {| registry := registry';
             calls := calls st
                      ++ [CallCreateRepositoryByFullName (Remote moduleIdentity)
                            req resp] |} in
        match resp with
        | rpcError err =>
            if bool_decide (CodeOf err = CodeAlreadyExists)
            then (Some (NewError CodeInternal
                          (errorString
                             ("expected repository " +:+ fullName
                              +:+ " to be missing but found the repository to already exist"))),
                  st')
            else (Some err, st')
        | rpcResponse _ => (None, st')
        end
    end.

Definition pushOrCreate (clientConfig : ClientConfig) (repo : GitRepository)
    (commit : Commit) (branch : string) (tags : list string)
    (moduleIdentity : ModuleIdentity) (moduleBucket : Bucket)
    (createWithVisibility : string)
  : Remotely (option GitSyncPoint * option error) :=
  fun st =>
    let '((modulePin, err), st1) :=
      push clientConfig repo commit branch tags moduleIdentity moduleBucket st in
    match err with
    | Some err =>
        if negb (bool_decide (createWithVisibility = ""))
           && bool_decide (CodeOf err = CodeNotFound)
        then
          let '(createErr, st2) :=
            create clientConfig moduleIdentity createWithVisibility st1 in
          match createErr with
          | Some err => ((None, Some (Errorf_w "create repo: " err)), st2)
          | None =>
              push clientConfig repo commit branch tags moduleIdentity
                moduleBucket st2
          end
        else ((None, Some (Errorf_w "push: " err)), st1)
    | None => ((modulePin, None), st1)
    end.

(** The function that [sync] hands to [syncer.Sync]: it pushes the module
    commit and prints one line for it.  The sync point of the reply is read
    through its pointer. *)
Definition syncFunc (clientConfig : ClientConfig) (repo : GitRepository)
    (createWithVisibility : string) (moduleCommit : bufsync.ModuleCommit Bucket)
  : remoteState * Stderr -> outcome (option error) * (remoteState * Stderr) :=
  fun '(st, out) =>
    let '((syncPoint, err), st') :=
      pushOrCreate clientConfig repo
        (bufsync.Commit_ moduleCommit) (bufsync.Branch moduleCommit)
        (bufsync.Tags moduleCommit) (bufsync.Identity moduleCommit)
        (bufsync.Bucket_ moduleCommit) createWithVisibility st in
    match err with
    | Some err =>
        (returns
           (Some (Errorf_w
                    ("failed to push or create "
                     +:+ IdentityString (bufsync.Identity moduleCommit) +:+ " at "
                     +:+ Hash_String (Commit_Hash (bufsync.Commit_ moduleCommit))
                     +:+ ": ") err)),
         (st', out))
    | None =>
        match syncPoint with
        | None => (panics, (st', out))
        | Some syncPoint =>
            let '(err, out') :=
              Stderr_Write
                (bufsync.Branch moduleCommit +:+ ":"
                 +:+ Hex (Commit_Hash (bufsync.Commit_ moduleCommit)) +:+ " -> "
                 +:+ IdentityString (bufsync.Identity moduleCommit) +:+ ":"
                 +:+ BsrCommitName syncPoint
                 +:+ String (ascii_of_nat 10) EmptyString) out in
            (returns err, (st', out'))
        end
    end.

(** *** Reading the RPCs issued *)

(** The call syncs [commit] on [branch] with [tags] to the repository of
    [moduleIdentity]; the call creates that repository. *)
Definition pushes (moduleIdentity : ModuleIdentity) (commit : Commit)
    (branch : string) (tags : list string) (c : call) : Prop :=
  match c with
  | CallSyncGitCommit remote req _ =>
      remote = Remote moduleIdentity
      ∧ SyncGitCommitRequest_Owner req = Owner moduleIdentity
      ∧ SyncGitCommitRequest_Repository req = Repository moduleIdentity
      ∧ SyncGitCommitRequest_Hash req = Hex (Commit_Hash commit)
      ∧ SyncGitCommitRequest_Branch req = branch
      ∧ SyncGitCommitRequest_Tags req = tags
  | CallCreateRepositoryByFullName _ _ _ => False
  end.

Definition creates (moduleIdentity : ModuleIdentity) (c : call) : Prop :=
  match c with
  | CallCreateRepositoryByFullName remote req _ =>
      remote = Remote moduleIdentity
      ∧ CreateRepositoryByFullNameRequest_FullName req
        = Owner moduleIdentity +:+ "/" +:+ Repository moduleIdentity
  | CallSyncGitCommit _ _ _ => False
  end.

(** The error the registry answered a call with, if it did. *)
Definition replyError (c : call) : option error :=
  match c with
  | CallSyncGitCommit _ _ (rpcError err)
  | CallCreateRepositoryByFullName _ _ (rpcError err) => Some err
  | _ => None
  end.

(** The registry accepted a commit with this call: the sync point of its
    reply. *)
Definition accepted (c : call) : option (option GitSyncPoint) :=
  match c with
  | CallSyncGitCommit _ _ (rpcResponse Msg) =>
      Some (SyncGitCommitResponse_SyncPoint Msg)
  | _ => None
  end.

(** The line that [syncFunc] prints for a module commit. *)
Definition syncedLine (moduleCommit : bufsync.ModuleCommit Bucket)
    (syncPoint : GitSyncPoint) : string :=
  bufsync.Branch moduleCommit +:+ ":"
  +:+ Hex (Commit_Hash (bufsync.Commit_ moduleCommit)) +:+ " -> "
  +:+ IdentityString (bufsync.Identity moduleCommit) +:+ ":"
  +:+ BsrCommitName syncPoint +:+ String (ascii_of_nat 10) EmptyString.

End Push.

End reposync.

(** ** The Syncer engine

    The file that implements [Syncer] ([newSyncer] and the [Sync] method of
    [syncer]) is not among the sources.  This module models it from the
    design document: branch selector, commit graph walker, resumption and
    dedup reconciler, module materializer and error-policy dispatcher. *)

Module syncer.
Import bufsync.

(** Modelled from the spec: the repository collaborator (the git package is
    missing).  It resolves a hash to a commit or reports it absent, lists
    the remote-tracking branches of the recognised remote with their head
    commits, knows the remote's default branch, the checked-out branch and
    the tags with the commits they point at. *)
Record Repository : Type := {
  Objects : gmap Hash Commit;
  RemoteBranches : gmap string Hash;
  DefaultBranch : string;
  CurrentBranch : string;
  TagRefs : gmap string Hash;
}.

(** Modelled from the spec: resolving a hash (missing [Objects().Commit]).
    The store is content-addressed: the commit found under [h] is the one
    whose hash is [h]. *)
Definition resolve (repo : Repository) (h : Hash) : option Commit :=
  match Objects repo !! h with
  | Some c => if bool_decide (Commit_Hash c = h) then Some c else None
  | None => None
  end.

(** Modelled from the spec: the tags pointing at a commit, each once. *)
Definition tagsOf (repo : Repository) (h : Hash) : list string :=
  elements (dom (filter (fun kv => kv.2 = h) (TagRefs repo))).

(** [parent repo a b]: [a] is a parent of the commit [b] of the
    repository; [ancestor] is its transitive closure. *)
Definition parent (repo : Repository) (a b : Hash) : Prop :=
  ∃ c, resolve repo b = Some c ∧ a ∈ Parents c.

Definition ancestor (repo : Repository) : relation Hash := tc (parent repo).

(** Hashes are content addresses: no commit is its own ancestor. *)
Definition acyclic (repo : Repository) : Prop :=
  ∀ h, ¬ ancestor repo h h.

(** The lexicographic (bytewise) order of branch names. *)
Definition string_le : relation string := fun a b => String.leb a b = true.

#[global] Instance string_le_dec : RelDecision string_le.
Proof. intros a b. unfold string_le. apply bool_eq_dec. Defined.

(** Modelled from the spec: the branch selector (missing from the sources).
    Single-branch mode selects the checked-out branch when it has a
    remote-tracking counterpart; all-branches mode takes the default branch
    first, then the others in lexicographic order. *)
Definition branchesToSync (repo : Repository) (allBranches : bool) : list string :=
  let tracked := elements (dom (RemoteBranches repo)) in
  if allBranches
  then filter (fun b => b = DefaultBranch repo) tracked
       ++ merge_sort string_le
            (filter (fun b => b ≠ DefaultBranch repo) tracked)
  else filter (fun b => b = CurrentBranch repo) tracked.

(** The result of a walk of the commit graph. *)
Inductive walk : Type :=
  | walked (chain : list Commit)
  | missingObject (h : Hash)
  | outOfFuel.

Definition walkCons (c : Commit) (w : walk) : walk :=
  match w with
  | walked chain => walked (c :: chain)
  | _ => w
  end.

Section Walker.

(** The linearisation of merge commits is a policy of the walker that
    the design leaves open: which of the parents the walk follows. *)
Variable linearParent : list Hash -> option Hash.
Variable repo : Repository.

(** Modelled from the spec: the commit graph walker (missing from the
    sources).  The ancestry chain from [h] back to the repository root or
    to the resume boundary, which is excluded; newest commit first. *)
Fixpoint ancestry (fuel : nat) (h : Hash) (boundary : option Hash) : walk :=
  if bool_decide (boundary = Some h) then walked []
  else
    match resolve repo h with
    | None => missingObject h
    | Some c =>
        match fuel with
        | O => outOfFuel
        | S fuel' =>
            match linearParent (Parents c) with
            | None => walked [c]
            | Some p => walkCons c (ancestry fuel' p boundary)
            end
        end
    end.

End Walker.

(** The longest of the chains (the first one among equals). *)
Definition longest (chains : list (list Commit)) : list Commit :=
  foldr (fun chain acc => if (length chain <? length acc)%nat then acc else chain)
        [] chains.

(** Modelled from the spec: the storage collaborator and what the
    materializer does with a snapshot (missing from the sources): the
    snapshot of a subdirectory at a commit, the identity declared by the
    module configuration found in it (or why there is none), and the build
    check. *)
Record Storage {Bucket : Type} : Type := {
  snapshot : Commit -> string -> Bucket;
  parseConfig : Bucket -> ModuleIdentity + error;
  build : Bucket -> option error;
}.
Arguments Storage Bucket : clear implicits.

Section Engine.

Context {W Bucket : Type}.

(** A collaborator call reads and changes the world it talks to
    (registry, logger, context). *)
Definition World (A : Type) : Type := W -> A * W.

(** [type SyncFunc]. *)
Definition SyncFunc : Type := ModuleCommit Bucket -> World (option error).

(** What the sink was handed: the configured module it was made for, and
    the module commit. *)
Definition Delivery : Type := (Module_ * ModuleCommit Bucket)%type.

Record state : Type := {
  world : W;
  delivered : list Delivery;
}.

(** A step of the engine: a value or the error that ends the run, and
    the state after it. *)
Definition Run (A : Type) : Type := state -> (A + error) * state.

#[local] Instance Run_ret : MRet Run := fun A a s => (inl a, s).

#[local] Instance Run_bind : MBind Run := fun A B f m s =>
  match m s with
  | (inl a, s') => f a s'
  | (inr e, s') => (inr e, s')
  end.

Definition fail {A : Type} (e : error) : Run A := fun s => (inr e, s).

Definition lift {A : Type} (m : World A) : Run A := fun s =>
  let '(a, w) := m (world s) in
  (inl a, {| world := w; delivered := delivered s |}).

Definition orFail (r : option error) : Run unit :=
  match r with
  | Some e => fail e
  | None => mret tt
  end.

Fixpoint forEach {A : Type} (l : list A) (f : A -> Run unit) : Run unit :=
  match l with
  | [] => mret tt
  | a :: l' => f a ;; forEach l' f
  end.

Fixpoint mapRun {A B : Type} (f : A -> Run B) (l : list A) : Run (list B) :=
  match l with
  | [] => mret []
  | a :: l' => b ← f a; bs ← mapRun f l'; mret (b :: bs)
  end.

Variable linearParent : list Hash -> option Hash.
Variable repo : Repository.
Variable storage : Storage Bucket.
Variable errorHandler : ErrorHandler World.
(** [git.ErrObjectNotFound], and [ctx.Err()]. *)
Variable ErrObjectNotFound : error.
Variable ctxErr : World (option error).

(** Modelled from the spec: [newSyncer] (missing from the sources).  The
    options are applied in order to an empty configuration; the first
    error ends the construction. *)
Fixpoint applyOptions (options : list (SyncerOption World)) (s : syncer World)
  : syncer World + error :=
  match options with
  | [] => inl s
  | option :: options' =>
      match option s with
      | (Some err, _) => inr err
      | (None, s') => applyOptions options' s'
      end
  end.

Definition newSyncer (options : list (SyncerOption World)) : syncer World + error :=
  applyOptions options
    {| modulesToSync := []; syncPointResolver := None;
       syncedGitCommitChecker := None; moduleDefaultBranchGetter := None;
       allBranches := false |}.

Variable s : syncer World.
Variable syncFunc : SyncFunc.

(** Modelled from the spec: the default-branch gate (missing from the
    sources).  A module the registry does not know passes; another error
    of the getter, or a name that differs from the local default branch,
    ends the run. *)
Definition checkDefaultBranch (getter : ModuleDefaultBranchGetter World)
    (module : Module_) : Run unit :=
  match RemoteIdentity module with
  | None => mret tt
  | Some identity =>
      '(name, err) ← lift (getter identity);
      match err with
      | Some e => if errors_Is e ErrModuleDoesNotExist then mret tt else fail e
      | None =>
          if bool_decide (name = DefaultBranch repo) then mret tt
          else fail (errorString
                       ("default branch of " +:+ Module_String module
                        +:+ " is " +:+ name +:+ ", not "
                        +:+ DefaultBranch repo))
      end
  end.

(** Modelled from the spec: the resumption reconciler, steps (a) and (b)
    (missing from the sources).  The resume boundary of a module on a
    branch: the sync point of the resolver when its commit resolves; none
    when there is no sync point, or when the invalid-sync-point hook
    answers nil for one that does not resolve. *)
Definition resolveSyncPoint (module : Module_) (branch : string)
  : Run (option Hash) :=
  match syncPointResolver s, RemoteIdentity module with
  | Some resolver, Some identity =>
      '(syncPoint, err) ← lift (resolver identity branch);
      orFail err ;;
      match syncPoint with
      | None => mret None
      | Some h =>
          match resolve repo h with
          | Some _ => mret (Some h)
          | None =>
              r ← lift (InvalidSyncPoint errorHandler module branch h
                          (Some ErrObjectNotFound));
              orFail r ;;
              mret None
          end
      end
  | _, _ => mret None
  end.

(** Modelled from the spec: the dedup reconciler, step (c) (missing from
    the sources).  The hashes among the candidates that the checker
    reports as synced. *)
Definition syncedCommits (module : Module_) (chain : list Commit)
  : Run (gset string) :=
  match syncedGitCommitChecker s, RemoteIdentity module with
  | Some checker, Some identity =>
      '(synced, err) ←
        lift (checker identity
                (list_to_set ((fun c => Hex (Commit_Hash c)) <$> chain)));
      orFail err ;;
      mret (default ∅ synced)
  | _, _ => mret ∅
  end.

(** Modelled from the spec: the commits of a branch that a module still
    has to receive (missing from the sources): the ancestry chain of the
    head down to the resume boundary, without the commits known synced.
    The first component is the whole chain walked. *)
Definition commitsToSync (branch : string) (head : Hash) (module : Module_)
  : Run (list Commit * (Module_ * list Commit)) :=
  boundary ← resolveSyncPoint module branch;
  match ancestry linearParent repo (size (Objects repo)) head boundary with
  | missingObject _ => fail ErrObjectNotFound
  | outOfFuel => fail (errorString "commit graph has a cycle")
  | walked chain =>
      synced ← syncedCommits module chain;
      mret (chain,
            (module, filter (fun c => Hex (Commit_Hash c) ∉ synced) chain))
  end.

(** Modelled from the spec: the module materializer (missing from the
    sources), for one commit and one module. *)
Definition visitCommit (branch : string) (commit : Commit) (module : Module_)
  : Run unit :=
  cancelled ← lift ctxErr;
  orFail cancelled ;;
  let bucket := snapshot storage commit (Dir module) in
  match parseConfig storage bucket with
  | inr err =>
      r ← lift (InvalidModuleConfig errorHandler module commit (Some err));
      orFail r
  | inl declared =>
      match build storage bucket with
      | Some err =>
          r ← lift (BuildFailure errorHandler module commit (Some err));
          orFail r
      | None =>
          let moduleCommit :=
            {| Identity := default declared (RemoteIdentity module);
               Bucket_ := bucket;
               Commit_ := commit;
               Branch := branch;
               Tags := tagsOf repo (Commit_Hash commit) |} in
          (fun st =>
             (inl tt, {| world := world st;
                         delivered := delivered st ++ [(module, moduleCommit)] |})) ;;
          r ← lift (syncFunc moduleCommit);
          orFail r
      end
  end.

(** Modelled from the spec: the walk of one branch (missing from the
    sources).  Sync points and synced sets are fetched for every module
    first; then the commits are visited oldest first and, for each
    commit, the modules in registration order. *)
Definition syncBranch (branch : string) : Run unit :=
  match RemoteBranches repo !! branch with
  | None => mret tt
  | Some head =>
      plans ← mapRun (commitsToSync branch head) (modulesToSync s);
      forEach (reverse (longest (plans.*1)))
        (fun commit =>
           forEach (plans.*2)
             (fun plan =>
                if bool_decide (Commit_Hash commit ∈ Commit_Hash <$> plan.2)
                then visitCommit branch commit plan.1
                else mret tt))
  end.

(** Modelled from the spec: [Sync] (missing from the sources). *)
Definition Sync : Run unit :=
  match moduleDefaultBranchGetter s with
  | Some getter => forEach (modulesToSync s) (checkDefaultBranch getter)
  | None => mret tt
  end ;;
  forEach (branchesToSync repo (allBranches s)) syncBranch.

(** A run from a world: the error that ended it, if any, and what was
    delivered, in order. *)
Definition runSync (w : W) : option error * list Delivery :=
  let '(r, st) := Sync {| world := w; delivered := [] |} in
  (match r with inl _ => None | inr e => Some e end, delivered st).

(** *** What a step delivers

    [emits m Q T]: whenever the step [m] ends, the deliveries it added
    satisfy [T], and a value it returned satisfies [Q]. *)
Definition emits {A : Type} (m : Run A) (Q : A -> Prop)
    (T : list Delivery -> Prop) : Prop :=
  ∀ st r st', m st = (r, st') →
    (∃ new, delivered st' = delivered st ++ new ∧ T new)
    ∧ (∀ a, r = inl a → Q a).

Definition silent (new : list Delivery) : Prop := new = [].

(** The deliveries of a loop over [l]: one group per element, in the
    order of [l]; the loop may stop early. *)
Inductive along {A : Type} (P : A -> list Delivery -> Prop)
  : list A -> list Delivery -> Prop :=
  | along_stop l : along P l []
  | along_step a l group new :
      P a group -> along P l new -> along P (a :: l) (group ++ new).

Definition hashOf (d : Delivery) : Hash := Commit_Hash (Commit_ d.2).

(** [older d1 d2]: the commit of [d1] is the commit of [d2] or one of
    its ancestors. *)
Definition older (d1 d2 : Delivery) : Prop :=
  rtc (parent repo) (hashOf d1) (hashOf d2).

Definition olderOnBranch (d1 d2 : Delivery) : Prop :=
  Branch d1.2 = Branch d2.2 → older d1 d2.

(** A chain as the walker returns it: every commit is followed by its
    ancestors. *)
Definition descending (chain : list Commit) : Prop :=
  StronglySorted
    (fun x y => rtc (parent repo) (Commit_Hash y) (Commit_Hash x)) chain.

Definition ascending (chain : list Commit) : Prop :=
  StronglySorted
    (fun x y => rtc (parent repo) (Commit_Hash x) (Commit_Hash y)) chain.

Definition onBranchAt (branch : string) (commit : Commit) (d : Delivery) : Prop :=
  Branch d.2 = branch ∧ Commit_ d.2 = commit.

End Engine.

End syncer.

(** ** A concrete setting

    The parameters above, instantiated for the examples: [%q] for strings
    without special characters, a registry that knows nothing, and a
    repository with the commits c1, c2, c3 on its branch main. *)

Module scenario.
Import registryv1alpha1 registryv1alpha1connect.

Definition quote (s : string) : string :=
  String (ascii_of_nat 34) (s +:+ String (ascii_of_nat 34) EmptyString).

Definition formatHashes (hashes : gset string) : string :=
  "map[" +:+ foldr (fun h acc => h +:+ ":{} " +:+ acc) "" (elements hashes) +:+ "]".

(** A hash is accepted when it has the 40 characters of a SHA-1 in hex. *)
Definition NewHashFromHex (hex : string) : Hash + error :=
  if (String.length hex =? 40)%nat
  then inl {| Hex := hex; Hash_String := hex |}
  else inr (errorString "hash was not 20 bytes long").

Definition ErrObjectNotFound : error := errorString "object not found".

Definition notFound {A : Type} : rpc A :=
  rpcError (connectError CodeNotFound "not_found").

Definition MakeSyncService (_ : unit) (_ : string) : SyncServiceClient :=
  {| GetGitSyncPoint := fun _ => notFound |}.
Definition MakeLabelService (_ : unit) (_ : string) : LabelServiceClient :=
  {| GetLabelsInNamespace := fun _ => notFound |}.
Definition MakeRepositoryService (_ : unit) (_ : string) : RepositoryServiceClient :=
  {| GetRepositoryByFullName := fun _ => notFound |}.

Definition AllFormatStrings : list string :=
  ["text"; "json"; "msvs"; "junit"; "github-actions"].

Definition ValidateErrorFormatFlag (format name : string) : option error :=
  if bool_decide (format ∈ AllFormatStrings) then None
  else Some (invalidArgumentError ("--" +:+ name +:+ ": invalid format")).

Definition VisibilityFlagToVisibility (visibility : string) : bool + error :=
  if bool_decide (visibility = "public") then inl true
  else if bool_decide (visibility = "private") then inl false
  else inr (errorString ("invalid visibility: " +:+ visibility)).

Definition ModuleIdentityForString (path : string) : ModuleIdentity + error :=
  if bool_decide (path = "buf.build/acme/petapis")
  then inl {| Remote := "buf.build"; Owner := "acme"; Repository := "petapis";
              IdentityString := path |}
  else inr (errorString "module identity is not of the form remote/owner/repository").

Definition newSyncableModule (dir : string) (identity : option ModuleIdentity)
  : bufsync.Module_ + error :=
  inl {| bufsync.Dir := dir; bufsync.RemoteIdentity := identity;
         bufsync.Module_String := dir |}.

Definition newSyncer (_ : unit) (_ : bufsync.ErrorHandler zap.Logging)
    (options : list (bufsync.SyncerOption outcome)) : unit + error :=
  inl tt.

(** The command in this setting. *)
Definition sync : list string -> string -> bool -> list reposync.event * option error :=
  reposync.sync quote formatHashes NewHashFromHex ErrObjectNotFound
    MakeSyncService MakeLabelService MakeRepositoryService
    (inl tt) (inl tt) ModuleIdentityForString id newSyncableModule newSyncer
    (fun _ _ => None).

Definition run : reposync.flags -> list reposync.event * option error :=
  reposync.run quote formatHashes NewHashFromHex ErrObjectNotFound
    MakeSyncService MakeLabelService MakeRepositoryService
    ValidateErrorFormatFlag VisibilityFlagToVisibility
    (inl tt) (inl tt) ModuleIdentityForString id newSyncableModule newSyncer
    (fun _ _ => None).

(** A registry that returns a sync point with the given hash, labels with
    the given names, and a repository with the given default branch. *)
Definition syncServiceWith (hash : string) (_ : unit) (_ : string)
  : SyncServiceClient :=
  {| GetGitSyncPoint := fun _ =>
       rpcResponse {| SyncPoint := Some {| GitCommitHash := hash;
                                           BsrCommitName := "" |} |} |}.

Definition labelServiceWith (names : list string) (_ : unit) (_ : string)
  : LabelServiceClient :=
  {| GetLabelsInNamespace := fun _ =>
       rpcResponse
         {| Labels :=
              (fun name =>
                 {| Label_LabelName :=
                      Some {| LabelName_Namespace := LABEL_NAMESPACE_GIT_COMMIT;
                              LabelName_Name := name |} |}) <$> names |} |}.

Definition petapis : ModuleIdentity :=
  {| Remote := "buf.build"; Owner := "acme"; Repository := "petapis";
     IdentityString := "buf.build/acme/petapis" |}.

Definition proto : bufsync.Module_ :=
  {| bufsync.Dir := "proto"; bufsync.RemoteIdentity := Some petapis;
     bufsync.Module_String := "proto:buf.build/acme/petapis" |}.

(** The repository: c1 <- c2 <- c3, with main at c3. *)
Definition hash (hex : string) : Hash := {| Hex := hex; Hash_String := hex |}.

Definition someone : Ident := {| Name := "someone"; Email := "someone@example.com";
                                 Timestamp := 0 |}.

Definition commit (hex : string) (parents : list string) : Commit :=
  {| Commit_Hash := hash hex; Parents := hash <$> parents;
     Author := someone; Committer := someone |}.

Definition c1 : Commit := commit "c1" [].
Definition c2 : Commit := commit "c2" ["c1"].
Definition c3 : Commit := commit "c3" ["c2"].

Definition repo : syncer.Repository :=
  {| syncer.Objects := <[hash "c3" := c3]> (<[hash "c2" := c2]> (<[hash "c1" := c1]> ∅));
     syncer.RemoteBranches := {[ "main" := hash "c3" ]};
     syncer.DefaultBranch := "main";
     syncer.CurrentBranch := "main";
     syncer.TagRefs := {[ "v1" := hash "c2" ]} |}.

(** The generation of a commit of [repo]. *)
Definition generation (h : Hash) : nat :=
  if bool_decide (h = hash "c1") then 1
  else if bool_decide (h = hash "c2") then 2
  else if bool_decide (h = hash "c3") then 3
  else 0.

(** The world is the log of the CLI's error handler; the snapshot of a
    directory is its name; every module configuration declares petapis and
    builds. *)
Definition storage : syncer.Storage string :=
  {| syncer.snapshot := fun _ dir => dir;
     syncer.parseConfig := fun _ => inl petapis;
     syncer.build := fun _ => None |}.

Definition errorHandler : bufsync.ErrorHandler (@syncer.World (list zap.Entry)) :=
  reposync.newErrorHandler ErrObjectNotFound.

(** The registry knows [syncPoint] as the last commit synced, and nothing
    by hash. *)
Definition configuration (syncPoint : option Hash)
  : bufsync.syncer (@syncer.World (list zap.Entry)) :=
  {| bufsync.modulesToSync := [proto];
     bufsync.syncPointResolver := Some (fun _ _ w => ((syncPoint, None), w));
     bufsync.syncedGitCommitChecker := Some (fun _ _ w => ((Some ∅, None), w));
     bufsync.moduleDefaultBranchGetter := Some (fun _ w => (("main", None), w));
     bufsync.allBranches := false |}.

(** The hashes delivered by a run, in order, and its error. *)
Definition runSync (syncPoint : option Hash)
  : option error * list (@syncer.Delivery string) :=
  syncer.runSync head repo storage errorHandler ErrObjectNotFound
    (fun w => (None, w)) (configuration syncPoint) (fun _ w => (None, w)) [].

(** A registry for pushes: the full names of the repositories it has.  A
    commit is accepted when its repository exists. *)
Definition SyncGitCommit (_ : unit) (_ : string)
    (req : SyncGitCommitRequest string string) (registry : list string)
  : rpc SyncGitCommitResponse * list string :=
  if bool_decide (SyncGitCommitRequest_Owner req +:+ "/"
                  +:+ SyncGitCommitRequest_Repository req ∈ registry)
  then (rpcResponse
          {| SyncGitCommitResponse_SyncPoint :=
               Some {| GitCommitHash := SyncGitCommitRequest_Hash req;
                       BsrCommitName := "bsr-" +:+ SyncGitCommitRequest_Hash req |} |},
        registry)
  else (notFound, registry).

Definition CreateRepositoryByFullName (_ : unit) (_ : string)
    (req : CreateRepositoryByFullNameRequest bool) (registry : list string)
  : rpc unit * list string :=
  if bool_decide (CreateRepositoryByFullNameRequest_FullName req ∈ registry)
  then (rpcError (connectError CodeAlreadyExists "already_exists"), registry)
  else (rpcResponse tt, CreateRepositoryByFullNameRequest_FullName req :: registry).

Definition connectErrorText (_ : Code) (underlying : error) : string :=
  Error underlying.

(** A snapshot is the name of its directory; the manifest lists it. *)
Definition NewFromBucket (bucket : string) : (string * unit) + error :=
  inl (bucket, tt).

Definition ToProtoManifestAndBlobs (m : string) (_ : unit)
  : (string * list string) + error :=
  inl (m, [m]).

Definition Stderr_Write (line : string) (out : list string)
  : option error * list string :=
  (None, out ++ [line]).

Definition petapisAtC3 : bufsync.ModuleCommit string :=
  {| bufsync.Identity := petapis; bufsync.Bucket_ := "proto";
     bufsync.Commit_ := c3; bufsync.Branch := "main"; bufsync.Tags := [] |}.

Definition pushOrCreate (createWithVisibility : string)
  : reposync.remoteState -> _ :=
  reposync.pushOrCreate SyncGitCommit CreateRepositoryByFullName
    NewFromBucket ToProtoManifestAndBlobs
    VisibilityFlagToVisibility connectErrorText
    tt tt c3 "main" [] petapis "proto" createWithVisibility.

Definition syncFunc (createWithVisibility : string)
  : reposync.remoteState * list string -> _ :=
  reposync.syncFunc SyncGitCommit CreateRepositoryByFullName
    NewFromBucket ToProtoManifestAndBlobs
    VisibilityFlagToVisibility connectErrorText Stderr_Write
    tt tt createWithVisibility petapisAtC3.

End scenario.

(** * Properties *)

(** ** Registering modules (bufsync.go) *)

Section SyncerWithModule_facts.
Import bufsync.
Context {M : Type -> Type}.
Implicit Types (s : syncer M) (module : Module_).

Lemma registered_existsb module (modules : list Module_) :
  existsb (fun existingModule =>
             bool_decide (Module_String existingModule = Module_String module))
          modules = true
  ↔ ∃ existingModule,
      existingModule ∈ modules
      ∧ Module_String existingModule = Module_String module.
Proof.
  rewrite existsb_exists. split.
  - intros (m & Hin & Heq). exists m. split.
    + by apply list_elem_of_In.
    + by apply bool_decide_eq_true in Heq.
  - intros (m & Hin & Heq). exists m. split.
    + by apply list_elem_of_In.
    + by apply bool_decide_eq_true.
Qed.

(** A fresh module is appended and no error is returned. *)
Lemma SyncerWithModule_fresh module s :
  (∀ existingModule, existingModule ∈ modulesToSync s →
     Module_String existingModule ≠ Module_String module) →
  ∃ s', SyncerWithModule module s = (None, s')
        ∧ modulesToSync s' = modulesToSync s ++ [module].
Proof.
  intros Hfresh. unfold SyncerWithModule.
  destruct (existsb _ _) eqn:Hex.
  - apply registered_existsb in Hex as (m & Hin & Heq).
    by destruct (Hfresh m Hin).
  - eauto.
Qed.

(** The strings of the registered modules stay pairwise different. *)
Lemma SyncerWithModule_NoDup module s err s' :
  NoDup (Module_String <$> modulesToSync s) →
  SyncerWithModule module s = (err, s') →
  NoDup (Module_String <$> modulesToSync s').
Proof.
  intros Hnd. unfold SyncerWithModule.
  destruct (existsb _ _) eqn:Hex; intros [= <- <-]; [done|]. simpl.
  rewrite fmap_app. apply NoDup_app. split_and!; [done| |apply NoDup_singleton].
  intros x Hx ->%list_elem_of_singleton.
  apply list_elem_of_fmap in Hx as (m & Heq & Hin).
  assert (existsb (fun existingModule =>
                     bool_decide (Module_String existingModule = Module_String module))
                  (modulesToSync s) = true) as Htrue; [|congruence].
  apply registered_existsb. eauto.
Qed.

(** Every exported option keeps the strings of the registered modules
    pairwise different. *)
Lemma exported_NoDup (option : SyncerOption M) s err s' :
  exported option →
  NoDup (Module_String <$> modulesToSync s) →
  option s = (err, s') →
  NoDup (Module_String <$> modulesToSync s').
Proof.
  intros [module|resolver|checker|getter|] Hnodup.
  - by apply SyncerWithModule_NoDup.
  - by intros [= <- <-].
  - by intros [= <- <-].
  - by intros [= <- <-].
  - by intros [= <- <-].
Qed.

(** C2.  Registering a module whose [String] form equals that of a module
    already registered returns the error [duplicate module <string>] and
    registers nothing: the syncer is the one before the call.  The option
    only reads and writes the configuration (its type gives it no access to
    the repository), so no commit is visited. *)
Theorem SyncerWithModule_duplicate_rejected module s :
  (∃ existingModule,
     existingModule ∈ modulesToSync s
     ∧ Module_String existingModule = Module_String module) →
  SyncerWithModule module s
  = (Some (errorString ("duplicate module " +:+ Module_String module)), s).
Proof.
  intros Hdup. apply registered_existsb in Hdup.
  unfold SyncerWithModule. by rewrite Hdup.
Qed.

End SyncerWithModule_facts.

(** A module registered through [SyncerWithModule] cannot be registered
    again. *)
Lemma SyncerWithModule_duplicate_rejected_witness :
  let proto := {| bufsync.Dir := "proto"; bufsync.RemoteIdentity := None;
                  bufsync.Module_String := "proto" |} in
  let s : bufsync.syncer outcome :=
    {| bufsync.modulesToSync := [proto]; bufsync.syncPointResolver := None;
       bufsync.syncedGitCommitChecker := None;
       bufsync.moduleDefaultBranchGetter := None;
       bufsync.allBranches := false |} in
  bufsync.SyncerWithModule proto s
  = (Some (errorString "duplicate module proto"), s).
Proof.
  intros proto s.
  apply (SyncerWithModule_duplicate_rejected proto s).
  exists proto. split; [apply list_elem_of_here | reflexivity].
Defined.

(** ** The collaborators of the CLI (reposync.go) *)

Section Collaborators_facts.
Import registryv1alpha1 registryv1alpha1connect reposync.

Variable quote : string -> string.
Variable formatHashes : gset string -> string.
Variable NewHashFromHex : string -> Hash + error.
Context {ClientConfig : Type}.
Variable MakeSyncService : ClientConfig -> string -> SyncServiceClient.
Variable MakeLabelService : ClientConfig -> string -> LabelServiceClient.
Variable MakeRepositoryService : ClientConfig -> string -> RepositoryServiceClient.

#[local] Abbreviation syncPointResolver :=
  (syncPointResolver quote NewHashFromHex MakeSyncService).
#[local] Abbreviation syncedHashesOfLabels := (syncedHashesOfLabels quote formatHashes).
#[local] Abbreviation syncGitCommitChecker :=
  (syncGitCommitChecker quote formatHashes MakeLabelService).
#[local] Abbreviation defaultBranchGetter :=
  (defaultBranchGetter quote MakeRepositoryService).

Lemma syncedHashesOfLabels_subset commitHashes labels acc synced err :
  acc ⊆ commitHashes →
  syncedHashesOfLabels commitHashes labels acc = returns (synced, err) →
  default ∅ synced ⊆ commitHashes.
Proof.
  revert acc. induction labels as [|label labels IH]; intros acc Hacc; simpl.
  - by intros [= <- <-].
  - destruct (Label_LabelName label) as [name|]; [|done].
    destruct (bool_decide_reflect (LabelName_Name name ∈ commitHashes)) as [Hin|Hin].
    + apply IH. apply union_subseteq. split; [by apply singleton_subseteq_l|done].
    + intros [= <- <-]. apply empty_subseteq.
Qed.

Lemma syncedHashesOfLabels_unexpected commitHashes labels acc :
  Forall named labels →
  Exists (unexpected commitHashes) labels →
  ∃ err, syncedHashesOfLabels commitHashes labels acc = returns (None, Some err).
Proof.
  revert acc. induction labels as [|label labels IH]; intros acc Hnamed Hex.
  - by apply Exists_nil in Hex.
  - apply Forall_cons in Hnamed as [[name Hname] Hnamed]. simpl. rewrite Hname.
    case_bool_decide; [|eauto].
    apply Exists_cons in Hex as [(name' & Hname' & Hout)|Hex]; [|by apply IH].
    rewrite Hname in Hname'. by simplify_eq.
Qed.

(** When every label names a candidate, the result is the set of the
    names. *)
Lemma syncedHashesOfLabels_expected commitHashes labels acc :
  Forall (fun label =>
            ∃ name, Label_LabelName label = Some name
                    ∧ LabelName_Name name ∈ commitHashes) labels →
  ∃ synced,
    syncedHashesOfLabels commitHashes labels acc = returns (Some synced, None)
    ∧ ∀ h, h ∈ synced ↔
           h ∈ acc ∨ ∃ label name, label ∈ labels
                                   ∧ Label_LabelName label = Some name
                                   ∧ LabelName_Name name = h.
Proof.
  revert acc. induction labels as [|label labels IH]; intros acc Hall; simpl.
  - exists acc. split; [done|]. intros h. split; [auto|].
    intros [?|(label & ? & Hin & _)]; [done|]. by apply elem_of_nil in Hin.
  - apply Forall_cons in Hall as [(name & Hname & Hin) Hall].
    rewrite Hname. rewrite bool_decide_eq_true_2 by done.
    destruct (IH ({[LabelName_Name name]} ∪ acc) Hall) as (synced & -> & Hsynced).
    exists synced. split; [done|]. intros h. rewrite Hsynced.
    rewrite elem_of_union, elem_of_singleton. split.
    + intros [[->|?]|(l & n & Hl & Hn & <-)]; [|by left|].
      * right. exists label, name. split_and!; [apply list_elem_of_here|done..].
      * right. exists l, n. split_and!; [by apply list_elem_of_further|done..].
    + intros [?|(l & n & Hl & Hn & <-)]; [by left; right|].
      apply elem_of_cons in Hl as [->|Hl].
      * left; left. congruence.
      * right. eauto.
Qed.

(** C3.  The synced-git-commit checker of the CLI, for every module and
    every candidate hash set:
    - whatever it returns, the returned set (a nil map is empty) is a
      subset of the candidates;
    - when the registry answers with labels that all carry a name and one
      of them names a hash outside the candidates, it returns a nil set
      and a non-nil error;
    - when the registry answers NotFound, it returns a nil (empty) set and
      a nil error;
    - any other error of the registry is returned, wrapped, as a non-nil
      error (which the Syncer treats as fatal). *)
Theorem syncGitCommitChecker_contract (clientConfig : ClientConfig)
    (module : ModuleIdentity) (commitHashes : gset string) :
  let reply :=
    GetLabelsInNamespace (MakeLabelService clientConfig (Remote module))
      {| RepositoryOwner := Owner module;
         RepositoryName := Repository module;
         LabelNamespace_ := LABEL_NAMESPACE_GIT_COMMIT;
         LabelNames := elements commitHashes |} in
  let result := syncGitCommitChecker clientConfig module commitHashes in
  (∀ synced err, result = returns (synced, err) →
                 default ∅ synced ⊆ commitHashes)
  ∧ (∀ Msg, reply = rpcResponse Msg →
            Forall named (Labels Msg) →
            Exists (unexpected commitHashes) (Labels Msg) →
            ∃ err, result = returns (None, Some err))
  ∧ (∀ err, reply = rpcError err → CodeOf err = CodeNotFound →
            result = returns (None, None))
  ∧ (∀ err, reply = rpcError err → CodeOf err ≠ CodeNotFound →
            result = returns (None, Some (Errorf_w "get labels in namespace: " err))).
Proof.
  intros reply result.
  assert (result = match reply with
                   | rpcError err =>
                       if bool_decide (CodeOf err = CodeNotFound)
                       then returns (None, None)
                       else returns (None, Some (Errorf_w "get labels in namespace: " err))
                   | rpcResponse Msg => syncedHashesOfLabels commitHashes (Labels Msg) ∅
                   end) as Hresult by reflexivity.
  clearbody result reply. subst result. split_and!.
  - intros synced err. destruct reply as [Msg|e].
    + apply syncedHashesOfLabels_subset. set_solver.
    + case_bool_decide; intros [= <- <-]; set_solver.
  - intros Msg -> Hnamed Hex. by apply syncedHashesOfLabels_unexpected.
  - intros err -> Hcode. by rewrite bool_decide_eq_true_2.
  - intros err -> Hcode. by rewrite bool_decide_eq_false_2.
Qed.

(** C4.  The sync point resolver of the CLI, for every module and branch:
    - it returns a nil hash and a nil error exactly when the registry
      answers with an error whose code is NotFound;
    - when the registry returns a sync point whose git commit hash
      [git.NewHashFromHex] rejects, it returns a nil hash and a non-nil
      error that wraps the parse error;
    - any other error of the registry is returned, wrapped, as a non-nil
      error with a nil hash (which the Syncer treats as fatal). *)
Theorem syncPointResolver_contract (clientConfig : ClientConfig)
    (module : ModuleIdentity) (branch : string) :
  let reply :=
    GetGitSyncPoint (MakeSyncService clientConfig (Remote module))
      {| GetGitSyncPointRequest_Owner := Owner module;
         GetGitSyncPointRequest_Repository := Repository module;
         GetGitSyncPointRequest_Branch := branch |} in
  let result := syncPointResolver clientConfig module branch in
  (result = returns (None, None)
   ↔ ∃ err, reply = rpcError err ∧ CodeOf err = CodeNotFound)
  ∧ (∀ Msg syncPoint err,
       reply = rpcResponse Msg → SyncPoint Msg = Some syncPoint →
       NewHashFromHex (GitCommitHash syncPoint) = inr err →
       result = returns (None,
                         Some (Errorf_w ("invalid sync point from BSR "
                                         +:+ quote (GitCommitHash syncPoint)
                                         +:+ ": ") err)))
  ∧ (∀ err, reply = rpcError err → CodeOf err ≠ CodeNotFound →
            result = returns (None, Some (Errorf_w "get git sync point: " err))).
Proof.
  intros reply result.
  assert (result = match reply with
                   | rpcError err =>
                       if bool_decide (CodeOf err = CodeNotFound)
                       then returns (None, None)
                       else returns (None, Some (Errorf_w "get git sync point: " err))
                   | rpcResponse Msg =>
                       match SyncPoint Msg with
                       | None => panics
                       | Some sp =>
                           match NewHashFromHex (GitCommitHash sp) with
                           | inr err =>
                               returns (None,
                                        Some (Errorf_w ("invalid sync point from BSR "
                                                        +:+ quote (GitCommitHash sp)
                                                        +:+ ": ") err))
                           | inl hash => returns (Some hash, None)
                           end
                       end
                   end) as Hresult by reflexivity.
  clearbody result reply. subst result. split_and!.
  - split.
    + destruct reply as [Msg|e].
      * destruct (SyncPoint Msg) as [sp|]; [|done].
        by destruct (NewHashFromHex _).
      * case_bool_decide; [eauto|done].
    + intros (err & -> & Hcode). by rewrite bool_decide_eq_true_2.
  - intros Msg sp err -> Hsp Herr. by rewrite Hsp, Herr.
  - intros err -> Hcode. by rewrite bool_decide_eq_false_2.
Qed.

(** C7.  The module-default-branch getter of the CLI, for every module:
    - it returns the sentinel [ErrModuleDoesNotExist] exactly when the
      registry answers with an error whose code is NotFound;
    - any other error of the registry is returned, wrapped, as a non-nil
      error that is not the sentinel;
    - when the registry answers with a repository, it returns the default
      branch recorded in it and a nil error. *)
Theorem defaultBranchGetter_contract (clientConfig : ClientConfig)
    (module : ModuleIdentity) :
  let reply :=
    GetRepositoryByFullName (MakeRepositoryService clientConfig (Remote module))
      {| FullName := Owner module +:+ "/" +:+ Repository module |} in
  let result := defaultBranchGetter clientConfig module in
  ((∃ name, result = returns (name, Some bufsync.ErrModuleDoesNotExist))
   ↔ ∃ err, reply = rpcError err ∧ CodeOf err = CodeNotFound)
  ∧ (∀ err, reply = rpcError err → CodeOf err ≠ CodeNotFound →
            ∃ fatal, result = returns ("", Some fatal)
                     ∧ fatal ≠ bufsync.ErrModuleDoesNotExist
                     ∧ Unwrap fatal = Some err)
  ∧ (∀ Msg repository,
       reply = rpcResponse Msg → Response_Repository Msg = Some repository →
       result = returns (DefaultBranch repository, None)).
Proof.
  intros reply result.
  assert (result = match reply with
                   | rpcError err =>
                       if bool_decide (CodeOf err = CodeNotFound)
                       then returns ("", Some bufsync.ErrModuleDoesNotExist)
                       else returns ("", Some (Errorf_w ("get repository by full name "
                                                         +:+ quote (IdentityString module)
                                                         +:+ ": ") err))
                   | rpcResponse Msg =>
                       match Response_Repository Msg with
                       | None => panics
                       | Some repository => returns (DefaultBranch repository, None)
                       end
                   end) as Hresult by reflexivity.
  clearbody result reply. subst result. split_and!.
  - split.
    + intros [name Hres]. destruct reply as [Msg|e].
      * by destruct (Response_Repository Msg).
      * case_bool_decide; [eauto|done].
    + intros (err & -> & Hcode). rewrite bool_decide_eq_true_2 by done. eauto.
  - intros err -> Hcode. rewrite bool_decide_eq_false_2 by done.
    eexists. split_and!; [reflexivity|done|done].
  - intros Msg repository -> Hrepo. by rewrite Hrepo.
Qed.

End Collaborators_facts.

(** ** The error handler of the CLI (reposync.go) *)

Section Handler_facts.
Import reposync.

Variable ErrObjectNotFound : error.

(** C5.  The invalid-sync-point hook of the CLI's error handler, for every
    module, branch, sync point and underlying error: it returns a non-nil
    error and logs nothing.  When the underlying error is (or wraps)
    [git.ErrObjectNotFound], the error returned is the diagnostic
    [last synced commit <sync point> was not found for module <module>; did
    you rebase?]; otherwise it is the underlying error itself. *)
Theorem InvalidSyncPoint_aborts (module : bufsync.Module_) (branch : string)
    (syncPoint : Hash) (err : error) (log : list zap.Entry) :
  ∃ abort,
    InvalidSyncPoint ErrObjectNotFound module branch syncPoint (Some err) log
    = (Some abort, log)
    ∧ abort
      = if errors_Is err ErrObjectNotFound
        then errorString ("last synced commit " +:+ Hash_String syncPoint
                          +:+ " was not found for module "
                          +:+ bufsync.Module_String module
                          +:+ "; did you rebase?")
        else err.
Proof.
  unfold InvalidSyncPoint. destruct (errors_Is err ErrObjectNotFound); eauto.
Qed.

(** The hook hands back what it was given: without an underlying error it
    returns nil. *)
Lemma InvalidSyncPoint_nil (module : bufsync.Module_) (branch : string)
    (syncPoint : Hash) (log : list zap.Entry) :
  InvalidSyncPoint ErrObjectNotFound module branch syncPoint None log = (None, log).
Proof. reflexivity. Qed.

(** C6.  The invalid-module-config hook and the build-failure hook of the
    CLI's error handler return nil for every module, commit and underlying
    error; each writes one warning to the logger, with the commit, the
    module and the error. *)
Theorem default_hooks_continue (module : bufsync.Module_) (commit : Commit)
    (err : option error) (log : list zap.Entry) :
  let fields :=
    [zap.Stringer "commit" (Hash_String (Commit_Hash commit));
     zap.Stringer "module" (bufsync.Module_String module);
     zap.Error_ err] in
  InvalidModuleConfig module commit err log
  = (None, log ++ [{| zap.Entry_Level := zap.WarnLevel;
                      zap.Entry_Message := "invalid module config";
                      zap.Entry_Fields := fields |}])
  ∧ BuildFailure module commit err log
    = (None, log ++ [{| zap.Entry_Level := zap.WarnLevel;
                        zap.Entry_Message := "module build failure";
                        zap.Entry_Fields := fields |}])
  ∧ bufsync.InvalidModuleConfig (newErrorHandler ErrObjectNotFound)
    = InvalidModuleConfig
  ∧ bufsync.BuildFailure (newErrorHandler ErrObjectNotFound) = BuildFailure.
Proof. by split_and!. Qed.

End Handler_facts.

(** ** The command (reposync.go) *)

Section Command_facts.
Import registryv1alpha1 registryv1alpha1connect reposync.

Variable quote : string -> string.
Variable formatHashes : gset string -> string.
Variable NewHashFromHex : string -> Hash + error.
Variable ErrObjectNotFound : error.
Context {ClientConfig Visibility GitRepository Syncer : Type}.
Variable MakeSyncService : ClientConfig -> string -> SyncServiceClient.
Variable MakeLabelService : ClientConfig -> string -> LabelServiceClient.
Variable MakeRepositoryService : ClientConfig -> string -> RepositoryServiceClient.
Variable ValidateErrorFormatFlag : string -> string -> option error.
Variable VisibilityFlagToVisibility : string -> Visibility + error.
Variable OpenRepository : GitRepository + error.
Variable NewConnectClientConfig : ClientConfig + error.
Variable ModuleIdentityForString : string -> ModuleIdentity + error.
Variable Normalize : string -> string.
Variable newSyncableModule : string -> option ModuleIdentity -> bufsync.Module_ + error.
Variable newSyncer :
  GitRepository -> bufsync.ErrorHandler zap.Logging ->
  list (bufsync.SyncerOption outcome) -> Syncer + error.
Variable Sync : Syncer -> string -> option error.

#[local] Abbreviation moduleOptions :=
  (moduleOptions quote ModuleIdentityForString Normalize newSyncableModule).
#[local] Abbreviation sync :=
  (sync quote formatHashes NewHashFromHex ErrObjectNotFound
     MakeSyncService MakeLabelService MakeRepositoryService
     OpenRepository NewConnectClientConfig ModuleIdentityForString Normalize
     newSyncableModule newSyncer Sync).
#[local] Abbreviation run :=
  (run quote formatHashes NewHashFromHex ErrObjectNotFound
     MakeSyncService MakeLabelService MakeRepositoryService
     ValidateErrorFormatFlag VisibilityFlagToVisibility
     OpenRepository NewConnectClientConfig ModuleIdentityForString Normalize
     newSyncableModule newSyncer Sync).

(** [IndexRune] is -1 exactly when the rune does not occur. *)
Lemma IndexRune_nonneg s r : (-1 ≤ IndexRune s r)%Z.
Proof.
  induction s as [|c s IH]; simpl; [lia|].
  destruct (Ascii.eqb c r); [lia|].
  destruct (Z.eqb_spec (IndexRune s r) (-1)); lia.
Qed.

(** An argument without a colon ends the loop over the arguments with an
    error, wherever it stands. *)
Lemma moduleOptions_missing_identity modules module syncerOptions :
  module ∈ modules → IndexRune module ":"%char = (-1)%Z →
  ∃ err, moduleOptions modules syncerOptions = inr err.
Proof.
  intros Hin Hcolon. revert syncerOptions.
  induction modules as [|m modules IH]; intros syncerOptions.
  - by apply elem_of_nil in Hin.
  - simpl. destruct (Z.eqb_spec (IndexRune m ":"%char) (-1)) as [|Hm]; [eauto|].
    apply elem_of_cons in Hin as [->|Hin]; [done|].
    destruct (ModuleIdentityForString _); [|eauto].
    unfold bufsync.NewModule. destruct (newSyncableModule _ _); [|eauto].
    by apply IH.
Qed.

(** C8 (amended).  A module argument must name a directory and an
    identity, [<directory>:<identity>].  An argument without a colon is
    rejected: the loop over the arguments stops at it with the
    invalid-argument error [module <argument> is missing an identity], and
    whenever some argument has no colon, [sync] returns a non-nil error
    without constructing a syncer or running it. *)
Theorem sync_module_argument_needs_identity (module : string) :
  IndexRune module ":"%char = (-1)%Z →
  (∀ modules syncerOptions,
     moduleOptions (module :: modules) syncerOptions
     = inr (invalidArgumentError
              ("module " +:+ quote module +:+ " is missing an identity")))
  ∧ (∀ modules createWithVisibility allBranches,
       module ∈ modules →
       let result := sync modules createWithVisibility allBranches in
       is_Some (snd result) ∧ (EvNewSyncer ∉ fst result) ∧ (EvSync ∉ fst result)).
Proof.
  intros Hcolon. split.
  - intros modules syncerOptions. simpl. by rewrite Hcolon.
  - intros modules createWithVisibility allBranches Hin. unfold reposync.sync.
    destruct modules as [|m modules]; [by apply elem_of_nil in Hin|].
    change (length (m :: modules) =? 0)%nat with false. cbv iota.
    destruct OpenRepository as [repo|err].
    2:{ simpl. split_and!; [eauto|..]; by apply (bool_decide_unpack _). }
    destruct NewConnectClientConfig as [clientConfig|err].
    2:{ simpl. split_and!; [eauto|..]; by apply (bool_decide_unpack _). }
    match goal with
    | |- context [reposync.moduleOptions _ _ _ _ ?ms ?opts] =>
        destruct (moduleOptions_missing_identity ms module opts Hin Hcolon)
          as [err ->]
    end.
    simpl. split_and!; [eauto|..]; by apply (bool_decide_unpack _).
Qed.

(** C9.  With no module to sync, [sync] logs [no modules to sync] and
    returns nil; it does nothing else: it neither opens the repository nor
    builds a client configuration or a syncer, and the Syncer (whose run
    alone contacts the registry and delivers module commits) is not run.
    For the command as a whole: with no module, [run] either does just
    that, or returns the error of the flag validation, having done
    nothing. *)
Theorem sync_no_modules :
  (∀ createWithVisibility allBranches,
     sync [] createWithVisibility allBranches
     = ([EvLogInfo "no modules to sync"], None))
  ∧ (∀ flags : flags,
       Modules flags = [] →
       run flags = ([EvLogInfo "no modules to sync"], None)
       ∨ ∃ err, run flags = ([], Some err)).
Proof.
  split; [reflexivity|]. intros flags Hmodules. unfold reposync.run.
  rewrite Hmodules.
  destruct (ValidateErrorFormatFlag _ _); [eauto|].
  destruct (bool_decide (CreateVisibility flags = "")), (Create flags); simpl;
    [eauto|by left| |eauto].
  destruct (VisibilityFlagToVisibility _); [by left|eauto].
Qed.

(** When [sync] is entered it leaves a trace. *)
Lemma sync_trace_nonempty modules createWithVisibility allBranches :
  (sync modules createWithVisibility allBranches).1 ≠ [].
Proof.
  unfold reposync.sync. destruct (length modules =? 0)%nat; [done|].
  destruct OpenRepository; [|done].
  by destruct (match NewConnectClientConfig with inl _ => _ | inr _ => _ end).
Qed.

(** C10.  The flags [--create] and [--create-visibility] in [run].
    - When [--create-visibility] is set without [--create], or [--create]
      is set while [--create-visibility] is unset or not a valid
      visibility, [run] returns an error and does nothing else; once the
      error format flag has passed its own validation, which comes first,
      that error is an invalid-argument error.
    - When both are unset, or both are set and the visibility is valid
      (and the error format is valid), [run] is [sync].
    - [sync] is entered only in these two cases. *)
Theorem run_create_flags (flags : flags) :
  let visibility := CreateVisibility flags in
  let valid := ∃ v, VisibilityFlagToVisibility visibility = inl v in
  let rejected :=
    (visibility ≠ "" ∧ Create flags = false)
    ∨ (Create flags = true ∧ (visibility = "" ∨ ¬ valid)) in
  let accepted :=
    (visibility = "" ∧ Create flags = false)
    ∨ (visibility ≠ "" ∧ Create flags = true ∧ valid) in
  let errorFormat :=
    ValidateErrorFormatFlag (ErrorFormat flags) errorFormatFlagName in
  (rejected →
     ∃ err, run flags = ([], Some err)
            ∧ (errorFormat = None → ∃ text, err = invalidArgumentError text))
  ∧ (accepted → errorFormat = None →
       run flags = sync (Modules flags) visibility (AllBranches flags))
  ∧ ((run flags).1 ≠ [] → errorFormat = None ∧ accepted).
Proof.
  intros visibility valid rejected accepted errorFormat.
  subst rejected accepted valid errorFormat visibility. unfold reposync.run.
  destruct (ValidateErrorFormatFlag _ _) as [e|].
  { split_and!.
    - intros _. exists e. split; [done|]. intros [=].
    - intros _ [=].
    - intros Htrace. by destruct Htrace. }
  destruct (bool_decide_reflect (CreateVisibility flags = "")) as [Hcv|Hcv];
    destruct (Create flags) eqn:Hcreate; simpl.
  - split_and!.
    + intros _. eexists. split; [reflexivity|eauto].
    + intros [[_ [=]]|[? _]]; done.
    + intros Htrace. by destruct Htrace.
  - split_and!.
    + intros [[? _]|[[=] _]]; done.
    + done.
    + intros _. split; [done|]. by left.
  - destruct (VisibilityFlagToVisibility _) as [v|e] eqn:Hv.
    + split_and!.
      * intros [[_ [=]]|[_ [?|Hn]]]; [done|]. destruct Hn; eauto.
      * done.
      * intros _. split; [done|]. right. eauto.
    + split_and!.
      * intros _. eexists. split; [reflexivity|eauto].
      * intros [[? _]|(_ & _ & [v [=]])]; done.
      * intros Htrace. by destruct Htrace.
  - split_and!.
    + intros _. eexists. split; [reflexivity|eauto].
    + intros [[? _]|(_ & [=] & _)]; done.
    + intros Htrace. by destruct Htrace.
Qed.

End Command_facts.

(** ** The Syncer engine: order of delivery *)

Section Sorted_facts.
Context {A : Type}.
Implicit Types (R : relation A) (l : list A).

Lemma StronglySorted_reverse R l :
  StronglySorted R l → StronglySorted (flip R) (reverse l).
Proof.
  induction 1 as [|x l Hl IH Hx]; [constructor|].
  rewrite reverse_cons. apply StronglySorted_app. split_and!.
  - intros y z Hy ->%list_elem_of_singleton.
    rewrite elem_of_reverse in Hy. unfold flip.
    rewrite Forall_forall in Hx. by apply Hx.
  - done.
  - repeat constructor.
Qed.

Lemma StronglySorted_weaken R R' l :
  (∀ x y, x ∈ l → y ∈ l → R x y → R' x y) →
  StronglySorted R l → StronglySorted R' l.
Proof.
  intros Himpl. induction 1 as [|x l Hl IH Hx]; constructor.
  - apply IH. intros y z Hy Hz. apply Himpl; by apply list_elem_of_further.
  - apply Forall_forall. intros y Hy. apply Himpl.
    + apply list_elem_of_here.
    + by apply list_elem_of_further.
    + rewrite Forall_forall in Hx. by apply Hx.
Qed.

Lemma StronglySorted_lookup R l i j x y :
  StronglySorted R l → l !! i = Some x → l !! j = Some y → i < j → R x y.
Proof.
  intros Hl. revert i j. induction Hl as [|z l Hl IH Hz]; intros i j Hi Hj Hlt.
  - by rewrite lookup_nil in Hi.
  - destruct j as [|j]; [lia|]. simpl in Hj. destruct i as [|i]; simpl in Hi.
    + simplify_eq. rewrite Forall_forall in Hz. apply Hz.
      by eapply list_elem_of_lookup_2.
    + eapply IH; [done..|lia].
Qed.

End Sorted_facts.

Section Walker_facts.
Import syncer.

Variable linearParent : list Hash -> option Hash.
Variable repo : Repository.
Hypothesis linearParent_parent :
  ∀ parents p, linearParent parents = Some p → p ∈ parents.

Lemma resolve_hash h c : resolve repo h = Some c → Commit_Hash c = h.
Proof.
  unfold resolve. destruct (Objects repo !! h) as [c'|]; [|done].
  case_bool_decide; [|done]. by intros [= <-].
Qed.

Lemma resolve_stored h c : resolve repo h = Some c → h ∈ dom (Objects repo).
Proof.
  unfold resolve. destruct (Objects repo !! h) as [c'|] eqn:Hh; [|done].
  intros _. apply elem_of_dom. eauto.
Qed.

Lemma ancestor_upto_cycle a b :
  ancestor repo a b → rtc (parent repo) b a → ancestor repo a a.
Proof. intros Hab Hba. by eapply tc_rtc_r. Qed.

(** Every commit of a walk from [h] is [h] or an ancestor of [h], and the
    chain is descending. *)
Lemma ancestry_descending fuel h boundary chain :
  ancestry linearParent repo fuel h boundary = walked chain →
  Forall (fun c => rtc (parent repo) (Commit_Hash c) h) chain
  ∧ descending repo chain.
Proof.
  revert h chain. induction fuel as [|fuel IH]; intros h chain; simpl.
  - case_bool_decide; [intros [= <-]; split; constructor|].
    by destruct (resolve repo h).
  - case_bool_decide; [intros [= <-]; split; constructor|].
    destruct (resolve repo h) as [c|] eqn:Hc; [|done].
    pose proof (resolve_hash _ _ Hc) as Hh.
    destruct (linearParent (Parents c)) as [p|] eqn:Hp.
    + destruct (ancestry linearParent repo fuel p boundary) as [rest| |] eqn:Hrest;
        [|done..].
      intros [= <-]. destruct (IH _ _ Hrest) as [Hall Hdesc].
      assert (parent repo p h) as Hparent.
      { exists c. split; [done|]. by apply linearParent_parent. }
      assert (Forall (fun c' => rtc (parent repo) (Commit_Hash c') h) rest) as Hall'.
      { eapply Forall_impl; [done|]. intros c' Hc'. simpl in Hc'.
        by eapply rtc_r. }
      split.
      * constructor; [by rewrite Hh|done].
      * constructor; [done|]. by rewrite Hh.
    + intros [= <-]. split.
      * repeat constructor. by rewrite Hh.
      * repeat constructor.
Qed.

Lemma longest_cases (chains : list (list Commit)) :
  longest chains = [] ∨ longest chains ∈ chains.
Proof.
  induction chains as [|chain chains IH]; [by left|]. simpl.
  destruct (length chain <? length (longest chains))%nat.
  - destruct IH as [IH|IH]; [by left|]. right. by apply list_elem_of_further.
  - right. apply list_elem_of_here.
Qed.

Lemma longest_ascending (chains : list (list Commit)) :
  Forall (descending repo) chains →
  ascending repo (reverse (longest chains)).
Proof.
  intros Hall. unfold ascending.
  apply (StronglySorted_reverse
           (fun x y => rtc (parent repo) (Commit_Hash y) (Commit_Hash x))).
  destruct (longest_cases chains) as [->|Hin]; [constructor|].
  rewrite Forall_forall in Hall. by apply Hall.
Qed.

End Walker_facts.

Section Engine_facts.
Import bufsync syncer.

Context {W Bucket : Type}.
Variable linearParent : list Hash -> option Hash.
Variable repo : Repository.
Variable storage : Storage Bucket.
Variable errorHandler : ErrorHandler (@World W).
Variable ErrObjectNotFound : error.
Variable ctxErr : @World W (option error).
Variable s : syncer (@World W).
Variable syncFunc : @SyncFunc W Bucket.

Hypothesis linearParent_parent :
  ∀ parents p, linearParent parents = Some p → p ∈ parents.
Hypothesis repo_acyclic : acyclic repo.

#[local] Abbreviation Run := (@Run W Bucket).
#[local] Abbreviation Delivery := (@Delivery Bucket).
#[local] Abbreviation older := (@older Bucket repo).
#[local] Abbreviation olderOnBranch := (@olderOnBranch Bucket repo).
#[local] Abbreviation mret := (@Run_ret W Bucket _).
#[local] Abbreviation mbind := (@Run_bind W Bucket _ _).

(** *** Rules for [emits] *)

Lemma emits_mret {A : Type} (a : A) (Q : A → Prop) :
  Q a → emits (mret a) Q silent.
Proof.
  intros Ha st r st' [= <- <-]. split.
  - exists []. by rewrite app_nil_r.
  - by intros ? [= <-].
Qed.

Lemma emits_fail {A : Type} (e : error) (Q : A → Prop) :
  emits (fail e : Run A) Q silent.
Proof.
  intros st r st' [= <- <-]. split; [|done].
  exists []. by rewrite app_nil_r.
Qed.

Lemma emits_lift {A : Type} (m : @World W A) :
  emits (lift m : Run A) (fun _ => True) silent.
Proof.
  intros st r st'. unfold lift. destruct (m (world st)) as [a w].
  intros [= <- <-]. split; [|done]. exists []. by rewrite app_nil_r.
Qed.

Lemma emits_orFail (r : option error) :
  emits (orFail r : Run unit) (fun _ => True) silent.
Proof. destruct r; [apply emits_fail|by apply emits_mret]. Qed.

Lemma emits_weaken {A : Type} (m : Run A) (Q Q' : A → Prop)
    (T T' : list Delivery → Prop) :
  emits m Q T → (∀ a, Q a → Q' a) → (∀ new, T new → T' new) → emits m Q' T'.
Proof.
  intros Hm HQ HT st r st' Hrun.
  destruct (Hm _ _ _ Hrun) as [(new & Hnew & Ht) Hq]. split; [eauto|].
  intros a Ha. eauto.
Qed.

Lemma emits_bind {A B : Type} (m : Run A) (k : A → Run B)
    (Q1 : A → Prop) (Q2 : B → Prop) (T1 T2 T : list Delivery → Prop) :
  emits m Q1 T1 →
  (∀ a, Q1 a → emits (k a) Q2 T2) →
  (∀ new1, T1 new1 → T new1) →
  (∀ new1 new2, T1 new1 → T2 new2 → T (new1 ++ new2)) →
  emits (mbind k m) Q2 T.
Proof.
  intros Hm Hk Hstop Hgo st r st'. unfold Run_bind.
  destruct (m st) as [[a|e] st1] eqn:Hrun1;
    destruct (Hm _ _ _ Hrun1) as [(new1 & Hnew1 & Ht1) Hq1].
  - intros Hrun2.
    destruct (Hk a (Hq1 a eq_refl) _ _ _ Hrun2) as [(new2 & Hnew2 & Ht2) Hq2].
    split; [|done]. exists (new1 ++ new2). split; [|eauto].
    by rewrite Hnew2, Hnew1, app_assoc.
  - intros [= <- <-]. split; [eauto|done].
Qed.

Lemma emits_silent_bind {A B : Type} (m : Run A) (k : A → Run B)
    (Q1 : A → Prop) (Q2 : B → Prop) (T : list Delivery → Prop) :
  emits m Q1 silent →
  (∀ a, Q1 a → emits (k a) Q2 T) →
  T [] →
  emits (mbind k m) Q2 T.
Proof.
  intros Hm Hk Hnil. eapply emits_bind; [done..| |].
  - by intros ? ->.
  - by intros ? ? ->.
Qed.

Lemma emits_forEach {A : Type} (l : list A) (f : A → Run unit)
    (P : A → list Delivery → Prop) :
  (∀ a, a ∈ l → emits (f a) (fun _ => True) (P a)) →
  emits (forEach l f) (fun _ => True) (along P l).
Proof.
  induction l as [|a l IH]; intros Hf; simpl.
  - eapply emits_weaken; [by apply (emits_mret tt (fun _ => True))|done|].
    intros ? ->. constructor.
  - eapply emits_bind.
    + apply Hf, list_elem_of_here.
    + intros _ _. apply IH. intros a' Ha'. by apply Hf, list_elem_of_further.
    + intros new1 Hnew1. rewrite <- (app_nil_r new1).
      constructor; [done|constructor].
    + intros new1 new2 Hnew1 Hnew2. by constructor.
Qed.

Lemma emits_mapRun {A B : Type} (f : A → Run B) (l : list A) (Q : B → Prop) :
  (∀ a, a ∈ l → emits (f a) Q silent) →
  emits (mapRun f l) (Forall Q) silent.
Proof.
  induction l as [|a l IH]; intros Hf; simpl.
  - apply emits_mret. constructor.
  - eapply emits_silent_bind; [apply Hf, list_elem_of_here| |done].
    intros b Hb. eapply emits_silent_bind; [| |done].
    + apply IH. intros a' Ha'. by apply Hf, list_elem_of_further.
    + intros bs Hbs. apply emits_mret. by constructor.
Qed.

(** *** The steps of the engine *)

Lemma checkDefaultBranch_silent getter module :
  emits (checkDefaultBranch repo getter module : Run unit) (fun _ => True) silent.
Proof.
  unfold checkDefaultBranch.
  destruct (RemoteIdentity module) as [identity|]; [|by apply emits_mret].
  eapply emits_silent_bind; [apply emits_lift| |done].
  intros [name [e|]] _.
  - destruct (errors_Is e ErrModuleDoesNotExist);
      [by apply emits_mret|apply emits_fail].
  - case_bool_decide; [by apply emits_mret|apply emits_fail].
Qed.

Lemma resolveSyncPoint_silent module branch :
  emits (resolveSyncPoint repo errorHandler ErrObjectNotFound s module branch : Run _)
        (fun _ => True) silent.
Proof.
  unfold resolveSyncPoint.
  destruct (syncPointResolver s) as [resolver|]; [|by apply emits_mret].
  destruct (RemoteIdentity module) as [identity|]; [|by apply emits_mret].
  eapply emits_silent_bind; [apply emits_lift| |done].
  intros [syncPoint err] _.
  eapply emits_silent_bind; [apply emits_orFail| |done].
  intros _ _. destruct syncPoint as [h|]; [|by apply emits_mret].
  destruct (resolve repo h); [by apply emits_mret|].
  eapply emits_silent_bind; [apply emits_lift| |done].
  intros r _. eapply emits_silent_bind; [apply emits_orFail| |done].
  intros _ _. by apply emits_mret.
Qed.

Lemma syncedCommits_silent module chain :
  emits (syncedCommits s module chain : Run _) (fun _ => True) silent.
Proof.
  unfold syncedCommits.
  destruct (syncedGitCommitChecker s) as [checker|]; [|by apply emits_mret].
  destruct (RemoteIdentity module) as [identity|]; [|by apply emits_mret].
  eapply emits_silent_bind; [apply emits_lift| |done].
  intros [synced err] _.
  eapply emits_silent_bind; [apply emits_orFail| |done].
  intros _ _. by apply emits_mret.
Qed.

Lemma commitsToSync_silent branch head module :
  emits (commitsToSync linearParent repo errorHandler ErrObjectNotFound s
           branch head module : Run _)
        (fun plan => descending repo plan.1) silent.
Proof.
  unfold commitsToSync.
  eapply emits_silent_bind; [apply resolveSyncPoint_silent| |done].
  intros boundary _.
  destruct (ancestry _ _ _ _ _) as [chain| |] eqn:Hwalk; [|apply emits_fail..].
  eapply emits_silent_bind; [apply syncedCommits_silent| |done].
  intros synced _. apply emits_mret. simpl.
  by eapply ancestry_descending.
Qed.

Lemma visitCommit_emits branch commit module :
  emits (visitCommit repo storage errorHandler ctxErr syncFunc branch commit module
         : Run unit)
        (fun _ => True) (Forall (onBranchAt branch commit)).
Proof.
  unfold visitCommit.
  eapply emits_silent_bind; [apply emits_lift| |constructor].
  intros cancelled _.
  eapply emits_silent_bind; [apply emits_orFail| |constructor].
  intros _ _.
  destruct (parseConfig storage _) as [declared|err].
  - destruct (build storage _) as [err|].
    + eapply emits_silent_bind; [apply emits_lift| |constructor].
      intros r _. eapply emits_weaken; [apply emits_orFail|done|].
      intros ? ->. constructor.
    + eapply (emits_bind _ _ (fun _ => True) _
                (fun new => Forall (onBranchAt branch commit) new) silent).
      * intros st r st' [= <- <-]. split; [|done]. simpl.
        eexists. split; [done|]. by repeat constructor.
      * intros _ _. eapply emits_silent_bind; [apply emits_lift| |done].
        intros r _. apply emits_orFail.
      * done.
      * intros new1 new2 Hnew1 ->. by rewrite app_nil_r.
  - eapply emits_silent_bind; [apply emits_lift| |constructor].
    intros r _. eapply emits_weaken; [apply emits_orFail|done|].
    intros ? ->. constructor.
Qed.

(** *** Configuration, and the errors that end a run *)

(** A syncer built from exported options has no two modules with the same
    string. *)
Lemma newSyncer_NoDup (options : list (SyncerOption (@World W))) configured :
  Forall exported options →
  newSyncer options = inl configured →
  NoDup (Module_String <$> modulesToSync configured).
Proof.
  unfold newSyncer. intros Hoptions.
  enough (∀ initial : syncer (@World W),
            NoDup (Module_String <$> modulesToSync initial) →
            applyOptions options initial = inl configured →
            NoDup (Module_String <$> modulesToSync configured)) as Hfrom.
  { apply Hfrom. constructor. }
  induction Hoptions as [|option options Hoption Hoptions IH];
    intros initial Hinitial; simpl.
  - by intros [= <-].
  - destruct (option initial) as [[err|] next] eqn:Hcall; [done|].
    apply IH. by eapply exported_NoDup.
Qed.

(** An error of the resolver, of the checker or of the sink ends the
    step, and with it the run, with that error. *)
Lemma resolveSyncPoint_fatal module branch resolver identity
    (st : @state W Bucket) syncPoint e w :
  syncPointResolver s = Some resolver →
  RemoteIdentity module = Some identity →
  resolver identity branch (world st) = ((syncPoint, Some e), w) →
  resolveSyncPoint repo errorHandler ErrObjectNotFound s module branch st
  = (inr e, {| world := w; delivered := delivered st |}).
Proof.
  intros Hresolver Hidentity Hcall. unfold resolveSyncPoint.
  rewrite Hresolver, Hidentity. unfold base.mbind, Run_bind, lift.
  by rewrite Hcall.
Qed.

Lemma syncedCommits_fatal module chain checker identity
    (st : @state W Bucket) synced e w :
  syncedGitCommitChecker s = Some checker →
  RemoteIdentity module = Some identity →
  checker identity (list_to_set ((fun c => Hex (Commit_Hash c)) <$> chain)) (world st)
  = ((synced, Some e), w) →
  syncedCommits s module chain st
  = (inr e, {| world := w; delivered := delivered st |}).
Proof.
  intros Hchecker Hidentity Hcall. unfold syncedCommits.
  rewrite Hchecker, Hidentity. unfold base.mbind, Run_bind, lift.
  by rewrite Hcall.
Qed.

Lemma forEach_fatal {A : Type} (f : A → Run unit) (a : A) (l : list A) st e st' :
  f a st = (inr e, st') → forEach (a :: l) f st = (inr e, st').
Proof. intros Hcall. simpl. unfold base.mbind, Run_bind. by rewrite Hcall. Qed.

(** The deliveries of a loop whose groups all satisfy [F] satisfy [F]. *)
Lemma along_Forall {A : Type} (P : A → list Delivery → Prop)
    (F : Delivery → Prop) (l : list A) (new : list Delivery) :
  (∀ a group, P a group → Forall F group) → along P l new → Forall F new.
Proof.
  intros HP. induction 1 as [|a l group new Hgroup Hnew IH]; [constructor|].
  apply Forall_app. eauto.
Qed.

(** Along an ascending chain, the deliveries are sorted by [older]. *)
Lemma along_ascending branch (chain : list Commit) (new : list Delivery) :
  ascending repo chain →
  along (fun commit group => Forall (onBranchAt branch commit) group) chain new →
  StronglySorted older new
  ∧ Forall (fun d => Branch d.2 = branch ∧ Commit_ d.2 ∈ chain) new.
Proof.
  intros Hchain Halong.
  induction Halong as [|commit chain group new Hgroup Hnew IH];
    [split; constructor|].
  apply StronglySorted_cons in Hchain as [Hcommit Hchain].
  destruct (IH Hchain) as [Hsorted Hall]. split.
  - apply StronglySorted_app. split_and!; [| |done].
    + intros d1 d2 Hd1 Hd2.
      rewrite Forall_forall in Hgroup. destruct (Hgroup _ Hd1) as [_ Hc1].
      rewrite Forall_forall in Hall. destruct (Hall _ Hd2) as [_ Hc2].
      rewrite Forall_forall in Hcommit. unfold syncer.older, hashOf.
      rewrite Hc1. by apply Hcommit.
    + clear -Hgroup. induction Hgroup as [|d group [_ Hd] Hgroup IH]; constructor;
        [done|].
      eapply Forall_impl; [done|]. intros d' [_ Hd']. unfold syncer.older, hashOf.
      by rewrite Hd, Hd'.
  - apply Forall_app. split.
    + eapply Forall_impl; [done|]. intros d [? ->].
      split; [done|apply list_elem_of_here].
    + eapply Forall_impl; [done|]. intros d [? ?].
      split; [done|by apply list_elem_of_further].
Qed.

Lemma syncBranch_emits branch :
  emits (syncBranch linearParent repo storage errorHandler ErrObjectNotFound
           ctxErr s syncFunc branch : Run unit)
        (fun _ => True)
        (fun new => StronglySorted older new
                    ∧ Forall (fun d => Branch d.2 = branch) new).
Proof.
  unfold syncBranch.
  destruct (RemoteBranches repo !! branch) as [head|].
  2:{ eapply emits_weaken; [by apply (emits_mret tt (fun _ => True))|done|].
      intros ? ->. split; constructor. }
  eapply emits_silent_bind;
    [apply emits_mapRun; intros; apply commitsToSync_silent| |split; constructor].
  intros plans Hplans.
  eapply emits_weaken; [|done|].
  - apply (emits_forEach _ _
             (fun commit group => Forall (onBranchAt branch commit) group)).
    intros commit _.
    eapply emits_weaken; [|done|].
    + apply (emits_forEach _ _
               (fun _ group => Forall (onBranchAt branch commit) group)).
      intros plan _. case_bool_decide; [apply visitCommit_emits|].
      eapply emits_weaken; [by apply (emits_mret tt (fun _ => True))|done|].
      intros ? ->. constructor.
    + intros new Hnew. eapply along_Forall; [|exact Hnew].
      by intros plan group Hgroup.
  - intros new Hnew. apply along_ascending in Hnew as [Hsorted Hall].
    + split; [done|]. eapply Forall_impl; [done|]. by intros d [? _].
    + apply longest_ascending. apply Forall_fmap.
      eapply Forall_impl; [done|]. by intros plan Hplan.
Qed.

(** Over branches with different names, the deliveries are sorted by
    [olderOnBranch]. *)
Lemma along_branches (branches : list string) (new : list Delivery) :
  NoDup branches →
  along (fun branch group =>
           StronglySorted older group
           ∧ Forall (fun d => Branch d.2 = branch) group) branches new →
  StronglySorted olderOnBranch new
  ∧ Forall (fun d => Branch d.2 ∈ branches) new.
Proof.
  intros Hnodup Halong.
  induction Halong as [|branch branches group new [Hgroup Hbranch] Hnew IH];
    [split; constructor|].
  apply NoDup_cons in Hnodup as [Hfresh Hnodup].
  destruct (IH Hnodup) as [Hsorted Hall]. split.
  - apply StronglySorted_app. split_and!; [| |done].
    + intros d1 d2 Hd1 Hd2 Heq.
      rewrite Forall_forall in Hbranch. rewrite Forall_forall in Hall.
      destruct Hfresh. rewrite <- (Hbranch _ Hd1), Heq. by apply Hall.
    + eapply StronglySorted_weaken; [|done]. by intros d1 d2 _ _ Hd _.
  - apply Forall_app. split.
    + eapply Forall_impl; [done|]. intros d ->. apply list_elem_of_here.
    + eapply Forall_impl; [done|]. intros d ?. by apply list_elem_of_further.
Qed.

Lemma branchesToSync_NoDup allBranches :
  NoDup (branchesToSync repo allBranches).
Proof.
  unfold branchesToSync.
  pose proof (NoDup_elements (dom (RemoteBranches repo))) as Hnodup.
  destruct allBranches; [|by apply NoDup_filter].
  apply NoDup_app. split_and!.
  - by apply NoDup_filter.
  - intros b [Hb _]%list_elem_of_filter.
    rewrite merge_sort_Permutation. by intros [? _]%list_elem_of_filter.
  - rewrite merge_sort_Permutation. by apply NoDup_filter.
Qed.

Lemma Sync_emits :
  emits (Sync linearParent repo storage errorHandler ErrObjectNotFound ctxErr
           s syncFunc : Run unit)
        (fun _ => True) (StronglySorted olderOnBranch).
Proof.
  unfold Sync. eapply emits_silent_bind; [| |constructor].
  - destruct (moduleDefaultBranchGetter s) as [getter|];
      [|by apply (emits_mret tt (fun _ => True))].
    eapply emits_weaken; [|done|].
    + apply (emits_forEach _ _ (fun _ => silent)).
      intros module _. apply checkDefaultBranch_silent.
    + intros new Hnew. unfold silent.
      induction Hnew as [|? ? ? ? -> ? ->]; done.
  - intros _ _. eapply emits_weaken; [|done|].
    + apply emits_forEach. intros branch _. apply syncBranch_emits.
    + intros new Hnew. eapply along_branches; [|done].
      apply branchesToSync_NoDup.
Qed.

(** The deliveries of a run are sorted: on one branch, a delivery that
    comes first carries the same commit as a later one, or one of its
    ancestors. *)
Lemma runSync_sorted w err log :
  runSync linearParent repo storage errorHandler ErrObjectNotFound ctxErr
    s syncFunc w = (err, log) →
  StronglySorted olderOnBranch log.
Proof.
  unfold runSync.
  destruct (Sync _ _ _ _ _ _ _ _ _) as [r st] eqn:Hrun. intros [= _ <-].
  destruct (Sync_emits _ _ _ Hrun) as [(new & -> & Hnew) _]. done.
Qed.

(** C1.  In every run of [Sync], for every branch and module: if the
    commits A and B are both delivered to the sink for that module on that
    branch, and A is an ancestor of B, then every delivery of A comes
    strictly before every delivery of B. *)
Theorem Sync_delivers_ancestors_first w err log :
  runSync linearParent repo storage errorHandler ErrObjectNotFound ctxErr
    s syncFunc w = (err, log) →
  ∀ (module : Module_) (branch : string) (A B : ModuleCommit Bucket) (i j : nat),
    log !! i = Some (module, A) → Branch A = branch →
    log !! j = Some (module, B) → Branch B = branch →
    ancestor repo (Commit_Hash (Commit_ A)) (Commit_Hash (Commit_ B)) →
    i < j.
Proof.
  intros Hrun module branch A B i j HA HbA HB HbB Hancestor.
  apply runSync_sorted in Hrun.
  destruct (decide (i < j)) as [|Hge]; [done|]. exfalso.
  apply (repo_acyclic (Commit_Hash (Commit_ A))).
  destruct (decide (j = i)) as [->|Hne].
  - by simplify_eq.
  - eapply ancestor_upto_cycle; [done|].
    apply (StronglySorted_lookup _ _ j i _ _ Hrun HB HA); [lia|].
    simpl. congruence.
Qed.

End Engine_facts.

(** ** The concrete setting *)

Section Scenario_facts.
Import bufsync syncer scenario.

(** The example of the design document: three commits, no sync point:
    c1, c2, c3 are delivered in this order, for petapis on main. *)
Example runSync_first_run :
  (runSync None).1 = None
  ∧ (fun d : Module_ * ModuleCommit string =>
       (Module_String d.1, IdentityString (Identity d.2), Branch d.2,
        Hex (Commit_Hash (Commit_ d.2)), Tags d.2))
    <$> (runSync None).2
    = [("proto:buf.build/acme/petapis", "buf.build/acme/petapis", "main", "c1", []);
       ("proto:buf.build/acme/petapis", "buf.build/acme/petapis", "main", "c2", ["v1"]);
       ("proto:buf.build/acme/petapis", "buf.build/acme/petapis", "main", "c3", [])].
Proof. split; vm_compute; reflexivity. Qed.

(** The second run, with c2 as the sync point: c3 alone is delivered. *)
Example runSync_second_run :
  (fun d : Module_ * ModuleCommit string => Hex (Commit_Hash (Commit_ d.2)))
  <$> (runSync (Some (hash "c2"))).2
  = ["c3"].
Proof. vm_compute. reflexivity. Qed.

(** A sync point that the repository no longer has: the invalid-sync-point
    hook of the CLI ends the run with its diagnostic, and nothing is
    delivered. *)
Example runSync_rebased :
  runSync (Some (hash "c0"))
  = (Some (errorString
             "last synced commit c0 was not found for module proto:buf.build/acme/petapis; did you rebase?"),
     []).
Proof. vm_compute. reflexivity. Qed.

End Scenario_facts.

(** ** The walker never runs out of fuel *)

Section Fuel_facts.
Import syncer.

Variable linearParent : list Hash -> option Hash.
Variable repo : Repository.
Hypothesis linearParent_parent :
  ∀ parents p, linearParent parents = Some p → p ∈ parents.
Hypothesis repo_acyclic : acyclic repo.

Lemma walkCons_outOfFuel c w : walkCons c w = outOfFuel → w = outOfFuel.
Proof. by destruct w. Qed.

(** [visited]: the commits the walk has left behind, all descendants of
    the commit [h] it stands at. *)
Lemma ancestry_fuel (visited : gset Hash) fuel h boundary :
  visited ⊆ dom (Objects repo) →
  (∀ v, v ∈ visited → ancestor repo h v) →
  (size (Objects repo) ≤ fuel + size visited)%nat →
  ancestry linearParent repo fuel h boundary ≠ outOfFuel.
Proof.
  revert visited h. induction fuel as [|fuel IH]; intros visited h Hsub Hdesc Hsize;
    simpl; (case_bool_decide; [done|]);
    destruct (resolve repo h) as [c|] eqn:Hc; try done.
  - (* no fuel: every stored commit was visited, so was [h] *)
    intros _. apply (repo_acyclic h), Hdesc.
    assert (visited = dom (Objects repo)) as ->.
    { apply set_subseteq_size_eq; [done|]. rewrite size_dom. lia. }
    by eapply resolve_stored.
  - destruct (linearParent (Parents c)) as [p|] eqn:Hp; [|done].
    intros Hout%walkCons_outOfFuel. revert Hout.
    assert (parent repo p h) as Hparent.
    { exists c. split; [done|]. by apply linearParent_parent. }
    assert (h ∉ visited) as Hfresh.
    { intros Hin. by apply (repo_acyclic h), Hdesc. }
    apply (IH ({[h]} ∪ visited)).
    + apply union_subseteq. split; [|done].
      apply singleton_subseteq_l. by eapply resolve_stored.
    + intros v [->%elem_of_singleton|Hv]%elem_of_union.
      * by apply tc_once.
      * eapply tc_l; [done|]. by apply Hdesc.
    + rewrite size_union, size_singleton; [lia|].
      by apply disjoint_singleton_l.
Qed.

(** With the number of stored commits as fuel, a walk ends with a chain or
    at a commit that the repository does not have. *)
Lemma ancestry_total h boundary :
  ancestry linearParent repo (size (Objects repo)) h boundary ≠ outOfFuel.
Proof.
  apply (ancestry_fuel ∅).
  - apply empty_subseteq.
  - by intros v ?%not_elem_of_empty.
  - rewrite size_empty. lia.
Qed.

End Fuel_facts.

(** ** The theorems at work in the concrete setting *)

(** [newSyncer] refuses a second module with the same string. *)
Lemma newSyncer_rejects_duplicate :
  @syncer.newSyncer (list zap.Entry)
    [bufsync.SyncerWithModule scenario.proto; bufsync.SyncerWithAllBranches;
     bufsync.SyncerWithModule scenario.proto]
  = inr (errorString "duplicate module proto:buf.build/acme/petapis").
Proof. reflexivity. Qed.

Lemma head_parent (parents : list Hash) (p : Hash) :
  head parents = Some p → p ∈ parents.
Proof. destruct parents; [done|]. intros [= ->]. apply list_elem_of_here. Qed.

Lemma scenario_generation (a b : Hash) :
  syncer.parent scenario.repo a b →
  (scenario.generation a < scenario.generation b)%nat.
Proof.
  intros (c & Hc & Ha). unfold syncer.resolve in Hc.
  destruct (syncer.Objects scenario.repo !! b) as [c'|] eqn:Hb; [|done].
  case_bool_decide; [|done]. simplify_eq. unfold scenario.repo in Hb. simpl in Hb.
  rewrite !lookup_insert_Some, lookup_empty in Hb.
  destruct Hb as [[<- <-]|[_ [[<- <-]|[_ [[<- <-]|[_ [=]]]]]]]; simpl in Ha.
  - apply list_elem_of_singleton in Ha as ->. vm_compute. lia.
  - apply list_elem_of_singleton in Ha as ->. vm_compute. lia.
  - by apply elem_of_nil in Ha.
Qed.

Lemma scenario_acyclic : syncer.acyclic scenario.repo.
Proof.
  assert (∀ a b, syncer.ancestor scenario.repo a b →
                 (scenario.generation a < scenario.generation b)%nat) as Hlt.
  { induction 1 as [a b Hab|a b c Hab _ IH].
    - by apply scenario_generation.
    - apply scenario_generation in Hab. lia. }
  intros h Hh. apply Hlt in Hh. lia.
Qed.

(** c1 is delivered before its descendant c3. *)
Lemma Sync_delivers_ancestors_first_witness :
  syncer.ancestor scenario.repo (scenario.hash "c1") (scenario.hash "c3")
  ∧ (0 < 2)%nat.
Proof.
  assert (syncer.ancestor scenario.repo (scenario.hash "c1") (scenario.hash "c3"))
    as Hancestor.
  { apply (tc_l _ _ (scenario.hash "c2")); [|apply tc_once].
    - exists scenario.c2. split; [vm_compute; reflexivity|apply list_elem_of_here].
    - exists scenario.c3. split; [vm_compute; reflexivity|apply list_elem_of_here]. }
  split; [exact Hancestor|].
  destruct (scenario.runSync None) as [err log] eqn:Hrun.
  assert (∃ A B, log !! 0%nat = Some (scenario.proto, A)
                 ∧ log !! 2%nat = Some (scenario.proto, B)
                 ∧ bufsync.Branch A = "main" ∧ bufsync.Branch B = "main"
                 ∧ Commit_Hash (bufsync.Commit_ A) = scenario.hash "c1"
                 ∧ Commit_Hash (bufsync.Commit_ B) = scenario.hash "c3")
    as (A & B & HA & HB & HbA & HbB & HhA & HhB).
  { vm_compute in Hrun. injection Hrun as _ <-.
    eexists _, _. split_and!; reflexivity. }
  apply (Sync_delivers_ancestors_first head scenario.repo scenario.storage
           scenario.errorHandler scenario.ErrObjectNotFound
           (fun w => (None, w)) (scenario.configuration None) (fun _ w => (None, w))
           head_parent scenario_acyclic [] err log Hrun
           scenario.proto "main" A B 0%nat 2%nat HA HbA HB HbB).
  rewrite HhA, HhB. exact Hancestor.
Defined.

(** The registry does not know the repository; then a label for a hash that
    was not asked for. *)
Lemma syncGitCommitChecker_contract_witness :
  reposync.syncGitCommitChecker scenario.quote scenario.formatHashes
    scenario.MakeLabelService tt scenario.petapis {[ "c1" ]}
  = returns (None, None)
  ∧ ∃ err,
      reposync.syncGitCommitChecker scenario.quote scenario.formatHashes
        (scenario.labelServiceWith ["c1"; "c9"]) tt scenario.petapis {[ "c1" ]}
      = returns (None, Some err).
Proof.
  split.
  - destruct (syncGitCommitChecker_contract scenario.quote scenario.formatHashes
                scenario.MakeLabelService tt scenario.petapis {[ "c1" ]})
      as (_ & _ & HnotFound & _).
    apply (HnotFound (connectError CodeNotFound "not_found")); reflexivity.
  - destruct (syncGitCommitChecker_contract scenario.quote scenario.formatHashes
                (scenario.labelServiceWith ["c1"; "c9"]) tt scenario.petapis {[ "c1" ]})
      as (_ & Hunexpected & _).
    eapply Hunexpected; [reflexivity|..].
    + repeat constructor; by eexists.
    + apply Exists_cons_tl, Exists_cons_hd. eexists. split; [reflexivity|].
      simpl. by intros ?%elem_of_singleton.
Defined.

(** No sync point yet; then a sync point that is not a hash. *)
Lemma syncPointResolver_contract_witness :
  reposync.syncPointResolver scenario.quote scenario.NewHashFromHex
    scenario.MakeSyncService tt scenario.petapis "main"
  = returns (None, None)
  ∧ ∃ err,
      reposync.syncPointResolver scenario.quote scenario.NewHashFromHex
        (scenario.syncServiceWith "c2") tt scenario.petapis "main"
      = returns (None, Some err).
Proof.
  split.
  - destruct (syncPointResolver_contract scenario.quote scenario.NewHashFromHex
                scenario.MakeSyncService tt scenario.petapis "main")
      as ([_ HnotFound] & _ & _).
    apply HnotFound. eexists. split; reflexivity.
  - destruct (syncPointResolver_contract scenario.quote scenario.NewHashFromHex
                (scenario.syncServiceWith "c2") tt scenario.petapis "main")
      as (_ & Hinvalid & _).
    eexists. eapply Hinvalid; reflexivity.
Defined.

(** The registry does not know the module. *)
Lemma defaultBranchGetter_contract_witness :
  ∃ name,
    reposync.defaultBranchGetter scenario.quote scenario.MakeRepositoryService
      tt scenario.petapis
    = returns (name, Some bufsync.ErrModuleDoesNotExist).
Proof.
  destruct (defaultBranchGetter_contract scenario.quote
              scenario.MakeRepositoryService tt scenario.petapis)
    as ([_ HnotFound] & _ & _).
  apply HnotFound. eexists. split; reflexivity.
Defined.

(** C8, as stated, fails: the argument [proto] names a directory and no
    identity, and [sync] returns an invalid-argument error for it. *)
Lemma sync_module_without_identity_rejected :
  scenario.sync ["proto"] "" false
  = ([reposync.EvOpenRepository; reposync.EvNewConnectClientConfig;
      reposync.EvCloseRepository],
     Some (invalidArgumentError
             ("module " +:+ scenario.quote "proto" +:+ " is missing an identity")))
  ∧ (scenario.sync ["proto"] "" false).2 ≠ None.
Proof. split; [reflexivity|discriminate]. Qed.

Lemma sync_module_argument_needs_identity_witness :
  reposync.IndexRune "proto" ":"%char = (-1)%Z
  ∧ is_Some (scenario.sync ["buf.build/acme/petapis:proto"; "proto"] "" false).2.
Proof.
  split; [reflexivity|].
  destruct (sync_module_argument_needs_identity scenario.quote scenario.formatHashes
              scenario.NewHashFromHex scenario.ErrObjectNotFound
              scenario.MakeSyncService scenario.MakeLabelService
              scenario.MakeRepositoryService (inl tt) (inl tt)
              scenario.ModuleIdentityForString id scenario.newSyncableModule
              scenario.newSyncer (fun _ _ => None) "proto" eq_refl)
    as [_ Hsync].
  apply (Hsync ["buf.build/acme/petapis:proto"; "proto"] "" false).
  apply list_elem_of_further, list_elem_of_here.
Defined.

(** [--create-visibility public] without [--create]. *)
Lemma run_create_flags_witness :
  ∃ text,
    scenario.run {| reposync.ErrorFormat := "text";
                    reposync.Modules := ["proto:buf.build/acme/petapis"];
                    reposync.Create := false;
                    reposync.CreateVisibility := "public";
                    reposync.AllBranches := false |}
    = ([], Some (invalidArgumentError text)).
Proof.
  destruct (run_create_flags scenario.quote scenario.formatHashes
              scenario.NewHashFromHex scenario.ErrObjectNotFound
              scenario.MakeSyncService scenario.MakeLabelService
              scenario.MakeRepositoryService scenario.ValidateErrorFormatFlag
              scenario.VisibilityFlagToVisibility (inl tt) (inl tt)
              scenario.ModuleIdentityForString id scenario.newSyncableModule
              scenario.newSyncer (fun _ _ => None)
              {| reposync.ErrorFormat := "text";
                 reposync.Modules := ["proto:buf.build/acme/petapis"];
                 reposync.Create := false;
                 reposync.CreateVisibility := "public";
                 reposync.AllBranches := false |})
    as (Hrejected & _ & _).
  destruct Hrejected as (err & Hrun & Hkind).
  { left. split; [discriminate|reflexivity]. }
  destruct (Hkind eq_refl) as [text ->]. by exists text.
Defined.

(** No [--module] at all. *)
Lemma sync_no_modules_witness :
  let flags := {| reposync.ErrorFormat := "text"; reposync.Modules := [];
                  reposync.Create := false; reposync.CreateVisibility := "";
                  reposync.AllBranches := true |} in
  scenario.run flags = ([reposync.EvLogInfo "no modules to sync"], None)
  ∨ ∃ err, scenario.run flags = ([], Some err).
Proof.
  intros flags.
  destruct (sync_no_modules scenario.quote scenario.formatHashes
              scenario.NewHashFromHex scenario.ErrObjectNotFound
              scenario.MakeSyncService scenario.MakeLabelService
              scenario.MakeRepositoryService scenario.ValidateErrorFormatFlag
              scenario.VisibilityFlagToVisibility (inl tt) (inl tt)
              scenario.ModuleIdentityForString id scenario.newSyncableModule
              scenario.newSyncer (fun _ _ => None))
    as [_ Hrun].
  apply (Hrun flags). reflexivity.
Defined.

(** A module argument with its identity: the command opens the repository,
    builds the syncer and runs it. *)
Example sync_module_with_identity :
  reposync.IndexRune "proto:buf.build/acme/petapis" ":"%char = 5%Z
  ∧ reposync.sliceTo "proto:buf.build/acme/petapis" 5 = "proto"
  ∧ reposync.sliceFrom "proto:buf.build/acme/petapis" (5 + 1) = "buf.build/acme/petapis"
  ∧ scenario.sync ["proto:buf.build/acme/petapis"] "" false
    = ([reposync.EvOpenRepository; reposync.EvNewConnectClientConfig;
        reposync.EvNewSyncer; reposync.EvSync; reposync.EvCloseRepository],
       None).
Proof. split_and!; reflexivity. Qed.

(** * Further properties of the code *)

(** ** The options of bufsync.go *)

Section Options_more.
Import bufsync.
Context {M : Type -> Type}.
Implicit Types (s : syncer M) (module : Module_).

(** X1.  [SyncerWithModule] returns no error exactly when no registered
    module has the string of the new one; the module is then appended
    after the registered ones.  In both cases the collaborators and the
    all-branches flag are left as they were. *)
Theorem SyncerWithModule_registers module s :
  let result := SyncerWithModule module s in
  (result.1 = None
   ↔ ∀ existingModule, existingModule ∈ modulesToSync s →
       Module_String existingModule ≠ Module_String module)
  ∧ (result.1 = None → modulesToSync result.2 = modulesToSync s ++ [module])
  ∧ syncPointResolver result.2 = syncPointResolver s
  ∧ syncedGitCommitChecker result.2 = syncedGitCommitChecker s
  ∧ moduleDefaultBranchGetter result.2 = moduleDefaultBranchGetter s
  ∧ allBranches result.2 = allBranches s.
Proof.
  intros result. subst result. unfold SyncerWithModule.
  destruct (existsb _ _) eqn:Hregistered; simpl.
  - apply registered_existsb in Hregistered as (m & Hin & Heq).
    split_and!; try done. split; [done|]. intros Hfresh. by destruct (Hfresh m Hin).
  - split_and!; try done. split; [|done]. intros _ m Hin Heq.
    assert (existsb (fun existingModule =>
                       bool_decide (Module_String existingModule = Module_String module))
                    (modulesToSync s) = true) as Htrue; [|congruence].
    apply registered_existsb. eauto.
Qed.

(** X2.  No exported option removes or reorders a registered module: the
    modules before the call are a prefix of those after it.  If their
    strings were pairwise different before, they are so after. *)
Theorem exported_keeps_modules (option : SyncerOption M) s :
  exported option →
  modulesToSync s `prefix_of` modulesToSync (option s).2
  ∧ (NoDup (Module_String <$> modulesToSync s) →
     NoDup (Module_String <$> modulesToSync (option s).2)).
Proof.
  intros Hoption. split.
  - destruct Hoption as [module|resolver|checker|getter|]; simpl; try done.
    unfold SyncerWithModule. destruct (existsb _ _); simpl; [done|].
    by apply prefix_app_r.
  - intros Hnodup. destruct (option s) as [err s'] eqn:Hcall.
    by eapply exported_NoDup.
Qed.

(** X3.  An option that sets a collaborator or the mode never fails, and it
    commutes with the registration of a module: registering the module
    before or after it gives the same error and the same syncer. *)
Theorem setting_commutes_with_module (option : SyncerOption M) module s :
  setting option →
  (option s).1 = None
  ∧ (SyncerWithModule module (option s).2).1 = (SyncerWithModule module s).1
  ∧ (SyncerWithModule module (option s).2).2
    = (option (SyncerWithModule module s).2).2.
Proof.
  intros [resolver|checker|getter|]; unfold SyncerWithModule; simpl;
    by destruct (existsb _ _).
Qed.

End Options_more.

(** ** The collaborators of the CLI, continued *)

Section Collaborators_more.
Import registryv1alpha1 registryv1alpha1connect reposync.

Variable quote : string -> string.
Variable formatHashes : gset string -> string.
Variable NewHashFromHex : string -> Hash + error.
Context {ClientConfig : Type}.
Variable MakeSyncService : ClientConfig -> string -> SyncServiceClient.
Variable MakeLabelService : ClientConfig -> string -> LabelServiceClient.
Variable MakeRepositoryService : ClientConfig -> string -> RepositoryServiceClient.

#[local] Abbreviation syncPointResolver :=
  (syncPointResolver quote NewHashFromHex MakeSyncService).
#[local] Abbreviation syncGitCommitChecker :=
  (syncGitCommitChecker quote formatHashes MakeLabelService).
#[local] Abbreviation defaultBranchGetter :=
  (defaultBranchGetter quote MakeRepositoryService).

Lemma errors_Is_refl (err : error) : errors_Is err err = true.
Proof. destruct err; simpl; by rewrite bool_decide_eq_true_2. Qed.

Lemma Errorf_w_keeps (prefix : string) (err : error) :
  CodeOf (Errorf_w prefix err) = CodeOf err
  ∧ errors_Is (Errorf_w prefix err) err = true.
Proof.
  split; [done|]. simpl. rewrite errors_Is_refl. apply orb_true_r.
Qed.

(** X4.  When every label of the reply carries a name that is among the
    candidates, the checker returns, with a nil error, exactly the set of
    the names in the reply: every name once, in no order, and nothing
    else. *)
Theorem syncGitCommitChecker_returns_labels (clientConfig : ClientConfig)
    (module : ModuleIdentity) (commitHashes : gset string) Msg :
  GetLabelsInNamespace (MakeLabelService clientConfig (Remote module))
    {| RepositoryOwner := Owner module;
       RepositoryName := Repository module;
       LabelNamespace_ := LABEL_NAMESPACE_GIT_COMMIT;
       LabelNames := elements commitHashes |}
  = rpcResponse Msg →
  Forall (fun label =>
            ∃ name, Label_LabelName label = Some name
                    ∧ LabelName_Name name ∈ commitHashes) (Labels Msg) →
  ∃ synced,
    syncGitCommitChecker clientConfig module commitHashes
    = returns (Some synced, None)
    ∧ ∀ h, h ∈ synced ↔ ∃ label name, label ∈ Labels Msg
                                      ∧ Label_LabelName label = Some name
                                      ∧ LabelName_Name name = h.
Proof.
  intros Hreply Hlabels. unfold reposync.syncGitCommitChecker. rewrite Hreply.
  destruct (syncedHashesOfLabels_expected quote formatHashes commitHashes
              (Labels Msg) ∅ Hlabels) as (synced & -> & Hsynced).
  exists synced. split; [done|]. intros h. rewrite Hsynced. split; [|eauto].
  intros [Hempty|?]; [|done]. by apply not_elem_of_empty in Hempty.
Qed.

(** X5.  What the three collaborators make of an error of the registry.
    They never return an error whose code is NotFound: the resolver and the
    checker return no error for it, the getter returns the sentinel.  Any
    other error comes back wrapped, with the code of the registry's error
    and with that error in its chain. *)
Theorem collaborators_wrap_errors (clientConfig : ClientConfig)
    (module : ModuleIdentity) (branch : string) (commitHashes : gset string)
    (err : error) :
  let surfaced (returned : option error) :=
    (∀ e, returned = Some e → CodeOf e ≠ CodeNotFound)
    ∧ (CodeOf err ≠ CodeNotFound →
       ∃ e, returned = Some e ∧ CodeOf e = CodeOf err ∧ errors_Is e err = true) in
  (GetGitSyncPoint (MakeSyncService clientConfig (Remote module))
     {| GetGitSyncPointRequest_Owner := Owner module;
        GetGitSyncPointRequest_Repository := Repository module;
        GetGitSyncPointRequest_Branch := branch |} = rpcError err →
   ∃ returned, syncPointResolver clientConfig module branch = returns (None, returned)
               ∧ surfaced returned)
  ∧ (GetLabelsInNamespace (MakeLabelService clientConfig (Remote module))
       {| RepositoryOwner := Owner module;
          RepositoryName := Repository module;
          LabelNamespace_ := LABEL_NAMESPACE_GIT_COMMIT;
          LabelNames := elements commitHashes |} = rpcError err →
     ∃ returned, syncGitCommitChecker clientConfig module commitHashes
                 = returns (None, returned)
                 ∧ surfaced returned)
  ∧ (GetRepositoryByFullName (MakeRepositoryService clientConfig (Remote module))
       {| FullName := Owner module +:+ "/" +:+ Repository module |} = rpcError err →
     ∃ returned, defaultBranchGetter clientConfig module = returns ("", returned)
                 ∧ surfaced returned).
Proof.
  intros surfaced. subst surfaced. split_and!; intros Hreply.
  - unfold reposync.syncPointResolver. rewrite Hreply.
    destruct (bool_decide_reflect (CodeOf err = CodeNotFound)) as [Hcode|Hcode];
      eexists; (split; [reflexivity|]); split; try done.
    + intros e [= <-]. simpl. done.
    + intros _. eexists. split; [done|]. apply Errorf_w_keeps.
  - unfold reposync.syncGitCommitChecker. rewrite Hreply.
    destruct (bool_decide_reflect (CodeOf err = CodeNotFound)) as [Hcode|Hcode];
      eexists; (split; [reflexivity|]); split; try done.
    + intros e [= <-]. simpl. done.
    + intros _. eexists. split; [done|]. apply Errorf_w_keeps.
  - unfold reposync.defaultBranchGetter. rewrite Hreply.
    destruct (bool_decide_reflect (CodeOf err = CodeNotFound)) as [Hcode|Hcode];
      eexists; (split; [reflexivity|]); split; try done.
    + by intros e [= <-].
    + intros e [= <-]. simpl. done.
    + intros _. eexists. split; [done|]. apply Errorf_w_keeps.
Qed.

End Collaborators_more.

(** ** The command, continued *)

Section Arguments_more.
Import reposync.

Lemma substring_whole (s : string) : substring 0 (String.length s) s = s.
Proof. induction s as [|c s IH]; simpl; [done|]. by rewrite IH. Qed.

(** [IndexRune] finds the first occurrence: the string splits there. *)
Lemma IndexRune_split (s : string) (r : ascii) :
  IndexRune s r = (-1)%Z
  ∨ ∃ n : nat,
      IndexRune s r = Z.of_nat n
      ∧ (n < String.length s)%nat
      ∧ substring 0 n s
        +:+ String r (substring (S n) (String.length s - S n) s) = s
      ∧ IndexRune (substring 0 n s) r = (-1)%Z.
Proof.
  induction s as [|c s IH]; simpl; [by left|].
  destruct (Ascii.eqb_spec c r) as [->|Hc].
  - right. exists 0%nat. simpl. split_and!; [done|lia| |done].
    by rewrite Nat.sub_0_r, substring_whole.
  - destruct IH as [->|(n & -> & Hn & Hsplit & Hbefore)]; [by left|].
    right. exists (S n).
    destruct (Z.eqb_spec (Z.of_nat n) (-1)) as [|_]; [lia|].
    split_and!; [lia|lia| |].
    + simpl.
      transitivity
        (String c (substring 0 n s
                   +:+ String r (substring (S n) (String.length s - S n) s)));
        [reflexivity|by rewrite Hsplit].
    + simpl. destruct (Ascii.eqb_spec c r); [done|]. by rewrite Hbefore.
Qed.

(** X6.  How [sync] splits a module argument that has a colon: the
    directory is what stands before the first colon and has no colon
    itself, the identity is everything after that colon (further colons
    included); joined with a colon they give the argument back. *)
Theorem module_argument_split (module : string) :
  let colon := IndexRune module ":"%char in
  colon ≠ (-1)%Z →
  (0 ≤ colon < Z.of_nat (String.length module))%Z
  ∧ sliceTo module colon +:+ ":" +:+ sliceFrom module (colon + 1) = module
  ∧ IndexRune (sliceTo module colon) ":"%char = (-1)%Z.
Proof.
  intros colon Hcolon. subst colon.
  destruct (IndexRune_split module ":"%char) as [?|(n & Hn & Hlt & Hsplit & Hbefore)];
    [done|].
  rewrite Hn. unfold sliceTo, sliceFrom.
  replace (Z.to_nat (Z.of_nat n + 1)) with (S n) by lia. rewrite Nat2Z.id.
  split_and!; [lia|lia|done|done].
Qed.

End Arguments_more.

Section Command_more.
Import registryv1alpha1 registryv1alpha1connect reposync.

Variable quote : string -> string.
Variable formatHashes : gset string -> string.
Variable NewHashFromHex : string -> Hash + error.
Variable ErrObjectNotFound : error.
Context {ClientConfig Visibility GitRepository Syncer : Type}.
Variable MakeSyncService : ClientConfig -> string -> SyncServiceClient.
Variable MakeLabelService : ClientConfig -> string -> LabelServiceClient.
Variable MakeRepositoryService : ClientConfig -> string -> RepositoryServiceClient.
Variable ValidateErrorFormatFlag : string -> string -> option error.
Variable VisibilityFlagToVisibility : string -> Visibility + error.
Variable OpenRepository : GitRepository + error.
Variable NewConnectClientConfig : ClientConfig + error.
Variable ModuleIdentityForString : string -> ModuleIdentity + error.
Variable Normalize : string -> string.
Variable newSyncableModule : string -> option ModuleIdentity -> bufsync.Module_ + error.
Variable newSyncer :
  GitRepository -> bufsync.ErrorHandler zap.Logging ->
  list (bufsync.SyncerOption outcome) -> Syncer + error.
Variable Sync : Syncer -> string -> option error.

#[local] Abbreviation moduleOptions :=
  (moduleOptions quote ModuleIdentityForString Normalize newSyncableModule).
#[local] Abbreviation sync :=
  (sync quote formatHashes NewHashFromHex ErrObjectNotFound
     MakeSyncService MakeLabelService MakeRepositoryService
     OpenRepository NewConnectClientConfig ModuleIdentityForString Normalize
     newSyncableModule newSyncer Sync).
#[local] Abbreviation run :=
  (run quote formatHashes NewHashFromHex ErrObjectNotFound
     MakeSyncService MakeLabelService MakeRepositoryService
     ValidateErrorFormatFlag VisibilityFlagToVisibility
     OpenRepository NewConnectClientConfig ModuleIdentityForString Normalize
     newSyncableModule newSyncer Sync).

(** X7.  The loop of [sync] over the module arguments succeeds exactly when
    every argument has a colon, the part after the first colon is a module
    identity and the normalized part before it makes a module together with
    that identity.  It then adds one [SyncerWithModule] option for every
    argument, in the order of the arguments and after the options it was
    given; every module carries an identity. *)
Theorem moduleOptions_one_per_argument (modules : list string)
    (syncerOptions result : list (bufsync.SyncerOption outcome)) :
  let made (argument : string) (syncModule : bufsync.Module_) :=
    let colon := IndexRune argument ":"%char in
    colon ≠ (-1)%Z
    ∧ ∃ identity,
        ModuleIdentityForString (sliceFrom argument (colon + 1)) = inl identity
        ∧ newSyncableModule (Normalize (sliceTo argument colon)) (Some identity)
          = inl syncModule in
  moduleOptions modules syncerOptions = inl result
  ↔ ∃ syncModules,
      Forall2 made modules syncModules
      ∧ result = syncerOptions ++ (bufsync.SyncerWithModule <$> syncModules).
Proof.
  intros made. subst made. revert syncerOptions.
  induction modules as [|argument modules IH]; intros syncerOptions; simpl.
  - split.
    + intros [= <-]. exists []. split; [constructor|]. by rewrite app_nil_r.
    + intros (syncModules & ->%Forall2_nil_inv_l & ->). by rewrite app_nil_r.
  - destruct (Z.eqb_spec (IndexRune argument ":"%char) (-1)) as [Hcolon|Hcolon].
    { split; [done|]. intros (syncModules & Hmade & _).
      apply Forall2_cons_inv_l in Hmade as (? & ? & [? _] & _ & _). done. }
    unfold bufsync.NewModule.
    destruct (ModuleIdentityForString _) as [identity|err] eqn:Hidentity.
    2:{ split; [done|]. intros (syncModules & Hmade & _).
        apply Forall2_cons_inv_l in Hmade as (? & ? & [_ (? & ? & _)] & _ & _).
        congruence. }
    destruct (newSyncableModule _ _) as [syncModule|err] eqn:Hmodule.
    2:{ split; [done|]. intros (syncModules & Hmade & _).
        apply Forall2_cons_inv_l in Hmade as (? & ? & [_ (? & ? & ?)] & _ & _).
        congruence. }
    rewrite IH. split.
    + intros (syncModules & Hmade & ->). exists (syncModule :: syncModules). split.
      * constructor; [|done]. split; [done|]. eauto.
      * by rewrite <- app_assoc.
    + intros (syncModules & Hmade & ->).
      apply Forall2_cons_inv_l in Hmade
          as (m & rest & [_ (identity' & Hidentity' & Hmodule')] & Hrest & ->).
      exists rest. split; [done|].
      rewrite Hidentity in Hidentity'. injection Hidentity' as <-.
      rewrite Hmodule in Hmodule'. injection Hmodule' as <-.
      by rewrite <- app_assoc.
Qed.


End Command_more.

(** ** Pushing a module commit (reposync.go) *)

Section Push_more.
Import registryv1alpha1 reposync.

Context {ClientConfig GitRepository Visibility Registry Stderr : Type}.
Context {Bucket Manifest BlobSet ProtoManifest ProtoBlob : Type}.
Variable SyncGitCommit :
  ClientConfig -> string -> SyncGitCommitRequest ProtoManifest ProtoBlob ->
  Registry -> rpc SyncGitCommitResponse * Registry.
Variable CreateRepositoryByFullName :
  ClientConfig -> string -> CreateRepositoryByFullNameRequest Visibility ->
  Registry -> rpc unit * Registry.
Variable NewFromBucket : Bucket -> (Manifest * BlobSet) + error.
Variable ToProtoManifestAndBlobs :
  Manifest -> BlobSet -> (ProtoManifest * list ProtoBlob) + error.
Variable VisibilityFlagToVisibility : string -> Visibility + error.
Variable connectErrorText : Code -> error -> string.
Variable Stderr_Write : string -> Stderr -> option error * Stderr.

#[local] Abbreviation call := (@call Visibility ProtoManifest ProtoBlob).
#[local] Abbreviation remoteState :=
  (@remoteState Visibility Registry ProtoManifest ProtoBlob).
#[local] Abbreviation push :=
  (@push ClientConfig GitRepository Visibility Registry _ _ _ _ _
     SyncGitCommit NewFromBucket ToProtoManifestAndBlobs).
#[local] Abbreviation create :=
  (@create ClientConfig Visibility Registry ProtoManifest ProtoBlob
     CreateRepositoryByFullName VisibilityFlagToVisibility connectErrorText).
#[local] Abbreviation pushOrCreate :=
  (@pushOrCreate ClientConfig GitRepository Visibility Registry _ _ _ _ _
     SyncGitCommit CreateRepositoryByFullName NewFromBucket
     ToProtoManifestAndBlobs VisibilityFlagToVisibility connectErrorText).
#[local] Abbreviation syncFunc :=
  (@syncFunc ClientConfig GitRepository Visibility Registry Stderr _ _ _ _ _
     SyncGitCommit CreateRepositoryByFullName NewFromBucket
     ToProtoManifestAndBlobs VisibilityFlagToVisibility connectErrorText
     Stderr_Write).

(** The manifest of the snapshot can be built. *)
#[local] Abbreviation builds moduleBucket :=
  (∃ m blobSet built,
     NewFromBucket moduleBucket = inl (m, blobSet)
     ∧ ToProtoManifestAndBlobs m blobSet = inl built).

(** [push] issues no RPC when the manifest cannot be built, and one
    [SyncGitCommit] otherwise; its result is the reply. *)
Lemma push_cases clientConfig repo commit branch tags moduleIdentity moduleBucket
    (st : remoteState) :
  let result := push clientConfig repo commit branch tags moduleIdentity moduleBucket st in
  (¬ builds moduleBucket
   ∧ result.2 = st ∧ result.1.1 = None ∧ is_Some result.1.2)
  ∨ (builds moduleBucket
     ∧ ∃ c, calls result.2 = calls st ++ [c]
          ∧ pushes moduleIdentity commit branch tags c
          ∧ result.1.2 = replyError c
          ∧ (result.1.2 = None → accepted c = Some result.1.1)
          ∧ (is_Some result.1.2 → result.1.1 = None ∧ accepted c = None)).
Proof.
  intros result. subst result. unfold reposync.push.
  destruct (NewFromBucket moduleBucket) as [[m blobSet]|err] eqn:Hm.
  2:{ left. simpl. split_and!; eauto. by intros (? & ? & ? & [=] & _). }
  destruct (ToProtoManifestAndBlobs m blobSet) as [[bucketManifest blobs]|err] eqn:Hp.
  2:{ left. simpl. split_and!; eauto.
      intros (? & ? & ? & [= <- <-] & Hbuilt). congruence. }
  right. split; [by eexists _, _, _|].
  destruct (SyncGitCommit _ _ _ _) as [[Msg|err] registry'];
    eexists; simpl; (split; [reflexivity|]); split_and!; try done.
Qed.

(** The calls of [create], and what it makes of the reply. *)
Lemma create_cases clientConfig moduleIdentity visibility (st : remoteState) :
  let result := create clientConfig moduleIdentity visibility st in
  match VisibilityFlagToVisibility visibility with
  | inr err => result = (Some err, st)
  | inl v =>
      ∃ remote req reply,
        let c : call := CallCreateRepositoryByFullName remote req reply in
        calls result.2 = calls st ++ [c]
        ∧ creates moduleIdentity c
        ∧ CreateRepositoryByFullNameRequest_Visibility req = v
        ∧ match reply with
          | rpcResponse _ => result.1 = None
          | rpcError err =>
              if bool_decide (CodeOf err = CodeAlreadyExists)
              then ∃ e, result.1 = Some e ∧ CodeOf e = CodeInternal
              else result.1 = Some err
          end
  end.
Proof.
  intros result. subst result. unfold reposync.create.
  destruct (VisibilityFlagToVisibility visibility) as [v|err]; [|done].
  destruct (CreateRepositoryByFullName _ _ _ _) as [[[]|err] registry'].
  - eexists _, _, _. cbv zeta. split; [reflexivity|]. by split_and!.
  - destruct (bool_decide (CodeOf err = CodeAlreadyExists)) eqn:Hcode;
      eexists _, _, _; cbv zeta; (split; [reflexivity|]); split_and!; try done;
      rewrite Hcode; simpl; eauto.
Qed.

(** X9.  [create] first parses the visibility: when that fails it returns
    the parse error and issues no RPC.  Otherwise it issues exactly one
    [CreateRepositoryByFullName], for the repository of the module and with
    the visibility parsed, and returns nil exactly when the registry
    accepts it.  It never returns an error whose code is AlreadyExists:
    such an answer is turned into an error with code Internal; every other
    error of the registry is returned as it is. *)
Theorem create_reports clientConfig moduleIdentity visibility (st : remoteState) :
  let result := create clientConfig moduleIdentity visibility st in
  (∀ err, VisibilityFlagToVisibility visibility = inr err →
          result = (Some err, st))
  ∧ (∀ v, VisibilityFlagToVisibility visibility = inl v →
          ∃ c : call,
            calls result.2 = calls st ++ [c]
            ∧ creates moduleIdentity c
            ∧ (result.1 = None ↔ replyError c = None)
            ∧ (∀ e, result.1 = Some e → CodeOf e ≠ CodeAlreadyExists)
            ∧ (∀ err, replyError c = Some err →
                      if bool_decide (CodeOf err = CodeAlreadyExists)
                      then ∃ e, result.1 = Some e ∧ CodeOf e = CodeInternal
                      else result.1 = Some err)).
Proof.
  intros result.
  pose proof (create_cases clientConfig moduleIdentity visibility st) as Hcases.
  fold result in Hcases. clearbody result. split.
  - intros err Hparse. by rewrite Hparse in Hcases.
  - intros v Hparse. rewrite Hparse in Hcases.
    destruct Hcases as (remote & req & reply & Hcalls & Hcreates & _ & Hreply).
    eexists. split; [exact Hcalls|]. split; [exact Hcreates|].
    destruct reply as [[]|err]; simpl.
    + rewrite Hreply. split_and!; [done|done|done].
    + destruct (bool_decide_reflect (CodeOf err = CodeAlreadyExists)) as [Hcode|Hcode].
      * destruct Hreply as (e & -> & He). split_and!.
        -- split; done.
        -- intros ? [= <-]. by rewrite He.
        -- intros ? [= <-]. rewrite bool_decide_eq_true_2 by done. eauto.
      * rewrite Hreply. split_and!.
        -- split; done.
        -- by intros ? [= <-].
        -- intros ? [= <-]. by rewrite bool_decide_eq_false_2.
Qed.

(** The RPCs that [pushOrCreate] issues, with its result, case by case. *)
Lemma pushOrCreate_cases clientConfig repo commit branch tags moduleIdentity
    moduleBucket createWithVisibility (st : remoteState) :
  let result :=
    pushOrCreate clientConfig repo commit branch tags moduleIdentity moduleBucket
      createWithVisibility st in
  let pushes := pushes moduleIdentity commit branch tags in
  ∃ new : list call,
    calls result.2 = calls st ++ new
    ∧ ((new = [] ∧ is_Some result.1.2)
       ∨ (∃ p, new = [p] ∧ pushes p
               ∧ accepted p = Some result.1.1 ∧ result.1.2 = None)
       ∨ (∃ p, new = [p] ∧ pushes p
               ∧ accepted p = None ∧ is_Some result.1.2)
       ∨ (createWithVisibility ≠ "" ∧ ¬ builds moduleBucket
          ∧ ∃ c, new = [c] ∧ creates moduleIdentity c ∧ is_Some result.1.2)
       ∨ (createWithVisibility ≠ ""
          ∧ ∃ p c notFound,
              new = [p; c] ∧ pushes p ∧ replyError p = Some notFound
              ∧ CodeOf notFound = CodeNotFound
              ∧ creates moduleIdentity c ∧ is_Some (replyError c)
              ∧ is_Some result.1.2)
       ∨ (createWithVisibility ≠ ""
          ∧ ∃ p c p' notFound,
              new = [p; c; p'] ∧ pushes p ∧ replyError p = Some notFound
              ∧ CodeOf notFound = CodeNotFound
              ∧ creates moduleIdentity c ∧ replyError c = None
              ∧ pushes p' ∧ result.1.2 = replyError p'
              ∧ (result.1.2 = None → accepted p' = Some result.1.1)
              ∧ (is_Some result.1.2 → accepted p' = None))).
Proof.
  intros result pushes. subst result pushes.
  unfold reposync.pushOrCreate, reposync.push, reposync.create.
  destruct (NewFromBucket moduleBucket) as [[m blobSet]|manifestErr] eqn:Hm.
  1: destruct (ToProtoManifestAndBlobs m blobSet)
       as [[bucketManifest blobs]|manifestErr] eqn:Hp.
  - (* the manifest builds *)
    destruct (SyncGitCommit _ _ _ (registry st)) as [[Msg|err] registry1]; simpl.
    { eexists [_]. split; [reflexivity|]. right; left. eexists. by split_and!. }
    destruct (bool_decide_reflect (createWithVisibility = "")) as [Hcv|Hcv]; simpl.
    { eexists [_]. split; [reflexivity|]. do 2 right; left. eexists. by split_and!. }
    destruct (bool_decide_reflect (CodeOf err = CodeNotFound)) as [Hcode|Hcode]; simpl.
    2:{ eexists [_]. split; [reflexivity|]. do 2 right; left. eexists. by split_and!. }
    destruct (VisibilityFlagToVisibility createWithVisibility) as [v|parseErr]; simpl.
    2:{ eexists [_]. split; [reflexivity|]. do 2 right; left. eexists. by split_and!. }
    destruct (CreateRepositoryByFullName _ _ _ registry1) as [[[]|createErr] registry2];
      simpl.
    2:{ destruct (bool_decide (CodeOf createErr = CodeAlreadyExists)); simpl;
          (eexists [_; _]); (split; [by rewrite <- app_assoc|]); do 4 right; left;
          (split; [done|]); eexists _, _, _; split_and!; try done; simpl; eauto. }
    destruct (SyncGitCommit _ _ _ registry2) as [[Msg|err'] registry3]; simpl.
    + eexists [_; _; _]. split; [by rewrite <- !app_assoc|]. do 5 right.
      split; [done|]. eexists _, _, _, _. by split_and!.
    + eexists [_; _; _]. split; [by rewrite <- !app_assoc|]. do 5 right.
      split; [done|]. eexists _, _, _, _. by split_and!.
  - (* the manifest cannot be converted *)
    assert (¬ builds moduleBucket) as Hbuilds.
    { intros (? & ? & ? & Hm' & Hp'). congruence. }
    rewrite Hm in Hbuilds. simpl.
    destruct (bool_decide_reflect (createWithVisibility = "")) as [Hcv|Hcv]; simpl.
    { exists []. rewrite app_nil_r. split; [done|]. left. eauto. }
    destruct (bool_decide (CodeOf manifestErr = CodeNotFound)); simpl.
    2:{ exists []. rewrite app_nil_r. split; [done|]. left. eauto. }
    destruct (VisibilityFlagToVisibility createWithVisibility) as [v|parseErr]; simpl.
    2:{ exists []. rewrite app_nil_r. split; [done|]. left. eauto. }
    destruct (CreateRepositoryByFullName _ _ _ (registry st))
      as [[[]|createErr] registry2]; simpl.
    + eexists [_]. split; [reflexivity|]. do 3 right; left.
      split_and!; [done..|]. eexists. split_and!; [done..|]. simpl. eauto.
    + destruct (bool_decide (CodeOf createErr = CodeAlreadyExists)); simpl;
        (eexists [_]); (split; [reflexivity|]); do 3 right; left;
        (split_and!; [done..|]); eexists; split_and!; [done..|]; simpl; eauto.
  - (* the manifest cannot be read *)
    assert (¬ builds moduleBucket) as Hbuilds.
    { intros (? & ? & ? & Hm' & _). congruence. }
    rewrite Hm in Hbuilds. simpl.
    destruct (bool_decide_reflect (createWithVisibility = "")) as [Hcv|Hcv]; simpl.
    { exists []. rewrite app_nil_r. split; [done|]. left. eauto. }
    destruct (bool_decide (CodeOf manifestErr = CodeNotFound)); simpl.
    2:{ exists []. rewrite app_nil_r. split; [done|]. left. eauto. }
    destruct (VisibilityFlagToVisibility createWithVisibility) as [v|parseErr]; simpl.
    2:{ exists []. rewrite app_nil_r. split; [done|]. left. eauto. }
    destruct (CreateRepositoryByFullName _ _ _ (registry st))
      as [[[]|createErr] registry2]; simpl.
    + eexists [_]. split; [reflexivity|]. do 3 right; left.
      split_and!; [done..|]. eexists. split_and!; [done..|]. simpl. eauto.
    + destruct (bool_decide (CodeOf createErr = CodeAlreadyExists)); simpl;
        (eexists [_]); (split; [reflexivity|]); do 3 right; left;
        (split_and!; [done..|]); eexists; split_and!; [done..|]; simpl; eauto.
Qed.

Lemma creates_not_accepted moduleIdentity (c : call) :
  creates moduleIdentity c → accepted c = None.
Proof. by destruct c. Qed.

Lemma pushes_not_creates moduleIdentity commit branch tags (c : call) :
  pushes moduleIdentity commit branch tags c → ¬ creates moduleIdentity c.
Proof. destruct c; simpl; [by intros _ ?|by intros ?]. Qed.

(** X10.  The RPCs of [pushOrCreate].  It issues at most three, all for
    the repository of the module: pushes of this commit, and at most one
    creation.  Without a visibility to create with it issues at most the one
    push.  A creation comes only with a visibility, after at most one push,
    which the registry answered with NotFound, and is followed by at most
    one more push. *)
Theorem pushOrCreate_calls clientConfig repo commit branch tags moduleIdentity
    moduleBucket createWithVisibility (st : remoteState) :
  let result :=
    pushOrCreate clientConfig repo commit branch tags moduleIdentity moduleBucket
      createWithVisibility st in
  let pushes := pushes moduleIdentity commit branch tags in
  ∃ new : list call,
    calls result.2 = calls st ++ new
    ∧ (length new ≤ 3)%nat
    ∧ Forall (fun c => pushes c ∨ creates moduleIdentity c) new
    ∧ (createWithVisibility = "" → new = [] ∨ ∃ p, new = [p] ∧ pushes p)
    ∧ (∀ before c after,
         new = before ++ c :: after → creates moduleIdentity c →
         createWithVisibility ≠ ""
         ∧ (length before ≤ 1)%nat ∧ (length after ≤ 1)%nat
         ∧ Forall (fun p => pushes p
                            ∧ ∃ notFound, replyError p = Some notFound
                                          ∧ CodeOf notFound = CodeNotFound) before
         ∧ Forall pushes after).
Proof.
  intros result pushes.
  destruct (pushOrCreate_cases clientConfig repo commit branch tags moduleIdentity
              moduleBucket createWithVisibility st) as (new & Hcalls & Hcases).
  fold result in Hcalls, Hcases. fold pushes in Hcases. clearbody result.
  exists new. split; [done|].
  assert (∀ p, pushes p → ¬ creates moduleIdentity p) as Hexclusive.
  { intros p. apply pushes_not_creates. }
  destruct Hcases
    as [[-> _]
       |[(p & -> & Hp & _)
        |[(p & -> & Hp & _)
         |[(Hcv & _ & c & -> & Hc & _)
          |[(Hcv & p & c & notFound & -> & Hp & Hreply & Hcode & Hc & _)
           |(Hcv & p & c & p' & notFound & -> & Hp & Hreply & Hcode & Hc & _
             & Hp' & _)]]]]].
  - split_and!; [simpl; lia|constructor|by left|].
    intros [|? ?] x after [=].
  - split_and!; [simpl; lia|constructor; [by left|constructor]|right; eauto|].
    intros [|? [|? ?]] x after [=] Hx; simplify_eq. by destruct (Hexclusive x).
  - split_and!; [simpl; lia|constructor; [by left|constructor]|right; eauto|].
    intros [|? [|? ?]] x after [=] Hx; simplify_eq. by destruct (Hexclusive x).
  - split_and!; [simpl; lia|constructor; [by right|constructor]|done|].
    intros [|? [|? ?]] x after [=] _; simplify_eq.
    split_and!; [done|simpl; lia|simpl; lia|constructor|constructor].
  - split_and!; [simpl; lia| |done|].
    { constructor; [by left|]. constructor; [by right|constructor]. }
    intros [|? [|? [|? ?]]] x after [=] Hx; simplify_eq.
    + by destruct (Hexclusive x).
    + split_and!; [done|simpl; lia|simpl; lia| |constructor].
      constructor; [eauto|constructor].
  - split_and!; [simpl; lia| |done|].
    { constructor; [by left|]. constructor; [by right|].
      constructor; [by left|constructor]. }
    intros [|? [|? [|? [|? ?]]]] x after [=] Hx; simplify_eq.
    + by destruct (Hexclusive x).
    + split_and!; [done|simpl; lia|simpl; lia| |].
      * constructor; [eauto|constructor].
      * constructor; [done|constructor].
    + by destruct (Hexclusive x).
Qed.

(** X11.  [pushOrCreate] returns a nil error exactly when the last RPC it
    issued is a push that the registry accepted; the sync point it returns
    is then the one of that reply. *)
Theorem pushOrCreate_succeeds_iff_accepted clientConfig repo commit branch tags
    moduleIdentity moduleBucket createWithVisibility (st : remoteState) :
  let result :=
    pushOrCreate clientConfig repo commit branch tags moduleIdentity moduleBucket
      createWithVisibility st in
  ∃ new : list call,
    calls result.2 = calls st ++ new
    ∧ (result.1.2 = None ↔ is_Some (last new ≫= accepted))
    ∧ (result.1.2 = None →
       ∃ p, last new = Some p
            ∧ pushes moduleIdentity commit branch tags p
            ∧ accepted p = Some result.1.1).
Proof.
  intros result.
  destruct (pushOrCreate_cases clientConfig repo commit branch tags moduleIdentity
              moduleBucket createWithVisibility st) as (new & Hcalls & Hcases).
  fold result in Hcalls, Hcases. clearbody result.
  exists new. split; [done|].
  destruct Hcases
    as [[-> [e He]]
       |[(p & -> & Hp & Haccepted & Hnil)
        |[(p & -> & Hp & Hrejected & [e He])
         |[(_ & _ & c & -> & Hc & [e He])
          |[(_ & p & c & notFound & -> & _ & _ & _ & Hc & _ & [e He])
           |(_ & p & c & p' & notFound & -> & _ & _ & _ & _ & _
             & Hp' & Hresult & Hnil & Herr)]]]]]; simpl.
  - rewrite He. split; [|done]. split; [done|]. by intros [? [=]].
  - rewrite Haccepted. split; [|eauto]. split; [eauto|done].
  - rewrite Hrejected, He. split; [|done]. split; [done|]. by intros [? [=]].
  - rewrite (creates_not_accepted _ _ Hc), He. split; [|done].
    split; [done|]. by intros [? [=]].
  - rewrite (creates_not_accepted _ _ Hc), He. split; [|done].
    split; [done|]. by intros [? [=]].
  - destruct (result.1.2) as [e|] eqn:He.
    + rewrite Herr by eauto. split; [|done]. split; [done|]. by intros [? [=]].
    + rewrite Hnil by done. split; [|eauto]. split; [eauto|done].
Qed.

(** X12.  The function that [sync] hands to the Syncer.  It returns nil only
    after the registry has accepted this commit (the last RPC is a push of
    it, answered with a sync point) and the line for it was written to
    stderr without error.  When no push was accepted it writes nothing and
    returns a non-nil error.  It panics exactly when the registry accepted
    the push with a reply that has no sync point. *)
Theorem syncFunc_reports clientConfig repo createWithVisibility
    (moduleCommit : bufsync.ModuleCommit Bucket) (st : remoteState) (out : Stderr) :
  let result := syncFunc clientConfig repo createWithVisibility moduleCommit (st, out) in
  let pushes :=
    pushes (bufsync.Identity moduleCommit) (bufsync.Commit_ moduleCommit)
      (bufsync.Branch moduleCommit) (bufsync.Tags moduleCommit) in
  ∃ new : list call,
    calls result.2.1 = calls st ++ new
    ∧ (result.1 = returns None →
       ∃ p syncPoint,
         last new = Some p ∧ pushes p ∧ accepted p = Some (Some syncPoint)
         ∧ Stderr_Write (syncedLine moduleCommit syncPoint) out
           = (None, result.2.2))
    ∧ (last new ≫= accepted = None →
       result.2.2 = out ∧ ∃ err, result.1 = returns (Some err))
    ∧ (result.1 = panics ↔ last new ≫= accepted = Some None).
Proof.
  intros result pushes. subst result pushes. unfold reposync.syncFunc.
  destruct (pushOrCreate_succeeds_iff_accepted clientConfig repo
              (bufsync.Commit_ moduleCommit) (bufsync.Branch moduleCommit)
              (bufsync.Tags moduleCommit) (bufsync.Identity moduleCommit)
              (bufsync.Bucket_ moduleCommit) createWithVisibility st)
    as (new & Hcalls & Hiff & Hnil).
  destruct (pushOrCreate _ _ _ _ _ _ _ _ _) as [[syncPoint [err|]] st'];
    simpl in Hcalls, Hiff, Hnil; exists new.
  - assert (last new ≫= accepted = None) as Hlast.
    { destruct (last new ≫= accepted) eqn:Hl; [|done].
      assert (Some err = None) as [=]. apply Hiff. eauto. }
    rewrite Hlast. simpl. split_and!; [done|done|eauto|done].
  - destruct (Hnil eq_refl) as (p & Hlast & Hp & Haccepted).
    rewrite Hlast. simpl. rewrite Haccepted.
    destruct syncPoint as [syncPoint|]; simpl.
    + destruct (Stderr_Write _ out) as [writeErr out'] eqn:Hwrite. simpl.
      split_and!; [done| |done|done].
      intros [= ->]. exists p, syncPoint. by split_and!.
    + by split_and!.
Qed.

End Push_more.

(** ** Flag validation and repository creation *)

Section Run_create_more.
Import registryv1alpha1 registryv1alpha1connect reposync.

Variable quote : string -> string.
Variable formatHashes : gset string -> string.
Variable NewHashFromHex : string -> Hash + error.
Variable ErrObjectNotFound : error.
Context {ClientConfig Visibility GitRepository Syncer Registry : Type}.
Context {ProtoManifest ProtoBlob : Type}.
Variable MakeSyncService : ClientConfig -> string -> SyncServiceClient.
Variable MakeLabelService : ClientConfig -> string -> LabelServiceClient.
Variable MakeRepositoryService : ClientConfig -> string -> RepositoryServiceClient.
Variable ValidateErrorFormatFlag : string -> string -> option error.
Variable VisibilityFlagToVisibility : string -> Visibility + error.
Variable OpenRepository : GitRepository + error.
Variable NewConnectClientConfig : ClientConfig + error.
Variable ModuleIdentityForString : string -> ModuleIdentity + error.
Variable Normalize : string -> string.
Variable newSyncableModule : string -> option ModuleIdentity -> bufsync.Module_ + error.
Variable newSyncer :
  GitRepository -> bufsync.ErrorHandler zap.Logging ->
  list (bufsync.SyncerOption outcome) -> Syncer + error.
Variable Sync : Syncer -> string -> option error.
Variable CreateRepositoryByFullName :
  ClientConfig -> string -> CreateRepositoryByFullNameRequest Visibility ->
  Registry -> rpc unit * Registry.
Variable connectErrorText : Code -> error -> string.

#[local] Abbreviation run :=
  (run quote formatHashes NewHashFromHex ErrObjectNotFound
     MakeSyncService MakeLabelService MakeRepositoryService
     ValidateErrorFormatFlag VisibilityFlagToVisibility
     OpenRepository NewConnectClientConfig ModuleIdentityForString Normalize
     newSyncableModule newSyncer Sync).
#[local] Abbreviation create :=
  (@create ClientConfig Visibility Registry ProtoManifest ProtoBlob
     CreateRepositoryByFullName VisibilityFlagToVisibility connectErrorText).

(** X13.  When [run] enters [sync], the visibility it passes on is set
    exactly when [--create] is, and it has been parsed once already: with
    it, [create] never stops at the visibility but always reaches the
    registry with one [CreateRepositoryByFullName] for the module. *)
Theorem run_validates_visibility (flags : flags) :
  (run flags).1 ≠ [] →
  (Create flags = true ↔ CreateVisibility flags ≠ "")
  ∧ (CreateVisibility flags ≠ "" →
     ∀ clientConfig moduleIdentity
       (st : @remoteState Visibility Registry ProtoManifest ProtoBlob),
     ∃ c, calls (create clientConfig moduleIdentity (CreateVisibility flags) st).2
          = calls st ++ [c]
          ∧ creates moduleIdentity c).
Proof.
  unfold reposync.run.
  destruct (ValidateErrorFormatFlag _ _); [done|].
  destruct (bool_decide_reflect (CreateVisibility flags = "")) as [Hcv|Hcv];
    destruct (Create flags); simpl; try done.
  destruct (VisibilityFlagToVisibility (CreateVisibility flags)) as [v|err] eqn:Hv;
    [|done].
  intros _. split; [done|]. intros _ clientConfig moduleIdentity st.
  pose proof (create_cases CreateRepositoryByFullName VisibilityFlagToVisibility
                connectErrorText clientConfig moduleIdentity
                (CreateVisibility flags) st) as Hcreate.
  rewrite Hv in Hcreate.
  destruct Hcreate as (remote & req & reply & Hcalls & Hcreates & _).
  eauto.
Qed.

End Run_create_more.

(** ** The further properties at work in the concrete setting *)

(** Pushing to a registry that does not have the repository, with a
    visibility to create it with: push, create, push. *)
Example pushOrCreate_creates_repository :
  let result :=
    scenario.pushOrCreate "private" {| reposync.registry := []; reposync.calls := [] |} in
  result.1 = (Some {| registryv1alpha1.GitCommitHash := "c3";
                      registryv1alpha1.BsrCommitName := "bsr-c3" |}, None)
  ∧ reposync.registry result.2 = ["acme/petapis"]
  ∧ (fun c => match c with
              | reposync.CallSyncGitCommit _ _ _ => "push"
              | reposync.CallCreateRepositoryByFullName _ _ _ => "create"
              end) <$> reposync.calls result.2
    = ["push"; "create"; "push"].
Proof. by split_and!. Qed.

(** Without a visibility the repository is not created. *)
Example pushOrCreate_does_not_create :
  let result :=
    scenario.pushOrCreate "" {| reposync.registry := []; reposync.calls := [] |} in
  (∃ err, result.1 = (None, Some err) ∧ CodeOf err = CodeNotFound)
  ∧ reposync.registry result.2 = []
  ∧ length (reposync.calls result.2) = 1%nat.
Proof. split_and!; [|done..]. eexists. by split. Qed.

Lemma SyncerWithModule_registers_witness :
  let other := {| bufsync.Dir := "other"; bufsync.RemoteIdentity := None;
                  bufsync.Module_String := "other" |} in
  bufsync.modulesToSync
    (bufsync.SyncerWithModule other (scenario.configuration None)).2
  = [scenario.proto; other].
Proof.
  intros other.
  destruct (SyncerWithModule_registers other (scenario.configuration None))
    as (Hfresh & Happended & _).
  apply Happended, Hfresh. intros existingModule Hin.
  apply list_elem_of_singleton in Hin as ->. discriminate.
Defined.

Lemma exported_keeps_modules_witness :
  let other := {| bufsync.Dir := "other"; bufsync.RemoteIdentity := None;
                  bufsync.Module_String := "other" |} in
  [scenario.proto]
    `prefix_of` bufsync.modulesToSync
                  (bufsync.SyncerWithModule other (scenario.configuration None)).2.
Proof.
  intros other.
  apply (exported_keeps_modules (bufsync.SyncerWithModule other)
           (scenario.configuration None)).
  constructor.
Defined.

Lemma setting_commutes_with_module_witness :
  (bufsync.SyncerWithAllBranches (scenario.configuration None)).1 = None.
Proof.
  apply (setting_commutes_with_module bufsync.SyncerWithAllBranches scenario.proto
           (scenario.configuration None)).
  constructor.
Defined.

Lemma syncGitCommitChecker_returns_labels_witness :
  ∃ synced,
    reposync.syncGitCommitChecker scenario.quote scenario.formatHashes
      (scenario.labelServiceWith ["c1"; "c1"]) tt scenario.petapis {[ "c1"; "c2" ]}
    = returns (Some synced, None).
Proof.
  destruct (syncGitCommitChecker_returns_labels scenario.quote scenario.formatHashes
              (scenario.labelServiceWith ["c1"; "c1"]) tt scenario.petapis
              {[ "c1"; "c2" ]} _ eq_refl)
    as (synced & Hresult & _).
  - repeat constructor; eexists; (split; [reflexivity|]); simpl;
      apply elem_of_union_l, elem_of_singleton; reflexivity.
  - by exists synced.
Defined.

Lemma collaborators_wrap_errors_witness :
  ∃ returned,
    reposync.syncPointResolver scenario.quote scenario.NewHashFromHex
      scenario.MakeSyncService tt scenario.petapis "main"
    = returns (None, returned).
Proof.
  destruct (collaborators_wrap_errors scenario.quote scenario.formatHashes
              scenario.NewHashFromHex scenario.MakeSyncService
              scenario.MakeLabelService scenario.MakeRepositoryService
              tt scenario.petapis "main" ∅ (connectError CodeNotFound "not_found"))
    as (Hresolver & _ & _).
  destruct (Hresolver eq_refl) as (returned & Hreturned & _). by exists returned.
Defined.

Lemma module_argument_split_witness :
  reposync.sliceTo "proto:buf.build/acme/petapis" 5 +:+ ":"
  +:+ reposync.sliceFrom "proto:buf.build/acme/petapis" (5 + 1)
  = "proto:buf.build/acme/petapis".
Proof.
  apply (module_argument_split "proto:buf.build/acme/petapis"). discriminate.
Defined.

Lemma moduleOptions_one_per_argument_witness :
  ∃ result,
    reposync.moduleOptions scenario.quote scenario.ModuleIdentityForString id
      scenario.newSyncableModule ["proto:buf.build/acme/petapis"] []
    = inl result.
Proof.
  eexists.
  apply (moduleOptions_one_per_argument scenario.quote
           scenario.ModuleIdentityForString id scenario.newSyncableModule).
  eexists [_]. split; [|reflexivity].
  constructor; [|constructor]. split; [discriminate|].
  eexists. split; reflexivity.
Defined.


Lemma create_reports_witness :
  ∃ c, reposync.calls
         (reposync.create scenario.CreateRepositoryByFullName
            scenario.VisibilityFlagToVisibility scenario.connectErrorText
            tt scenario.petapis "private"
            ({| reposync.registry := []; reposync.calls := [] |}
             : @reposync.remoteState bool (list string) string string)).2
       = [c].
Proof.
  destruct (create_reports scenario.CreateRepositoryByFullName
              scenario.VisibilityFlagToVisibility scenario.connectErrorText
              tt scenario.petapis "private"
              ({| reposync.registry := []; reposync.calls := [] |}
               : @reposync.remoteState bool (list string) string string))
    as [_ Hvalid].
  destruct (Hvalid false eq_refl) as (c & Hcalls & _). by exists c.
Defined.

Lemma pushOrCreate_calls_witness :
  let new :=
    reposync.calls
      (scenario.pushOrCreate "" {| reposync.registry := []; reposync.calls := [] |}).2 in
  new = [] ∨ ∃ p, new = [p].
Proof.
  intros new.
  destruct (pushOrCreate_calls scenario.SyncGitCommit
              scenario.CreateRepositoryByFullName scenario.NewFromBucket
              scenario.ToProtoManifestAndBlobs scenario.VisibilityFlagToVisibility
              scenario.connectErrorText tt tt scenario.c3 "main" []
              scenario.petapis "proto" ""
              {| reposync.registry := []; reposync.calls := [] |})
    as (new' & Hcalls & _ & _ & Hshape & _).
  change (new = new') in Hcalls. rewrite Hcalls.
  destruct (Hshape eq_refl) as [->|(p & -> & _)]; eauto.
Defined.

Lemma pushOrCreate_succeeds_iff_accepted_witness :
  let result :=
    scenario.pushOrCreate "private"
      {| reposync.registry := []; reposync.calls := [] |} in
  ∃ p, last (reposync.calls result.2) = Some p
       ∧ reposync.accepted p = Some result.1.1.
Proof.
  intros result.
  destruct (pushOrCreate_succeeds_iff_accepted scenario.SyncGitCommit
              scenario.CreateRepositoryByFullName scenario.NewFromBucket
              scenario.ToProtoManifestAndBlobs scenario.VisibilityFlagToVisibility
              scenario.connectErrorText tt tt scenario.c3 "main" []
              scenario.petapis "proto" "private"
              {| reposync.registry := []; reposync.calls := [] |})
    as (new & Hcalls & _ & Haccepted).
  destruct (Haccepted eq_refl) as (p & Hlast & _ & Hp).
  exists p. split; [|exact Hp].
  change (reposync.calls result.2 = new) in Hcalls. by rewrite Hcalls.
Defined.

Lemma syncFunc_reports_witness :
  let result :=
    scenario.syncFunc ""
      ({| reposync.registry := ["acme/petapis"]; reposync.calls := [] |}, []) in
  ∃ syncPoint,
    scenario.Stderr_Write (reposync.syncedLine scenario.petapisAtC3 syncPoint) []
    = (None, result.2.2).
Proof.
  intros result.
  destruct (syncFunc_reports scenario.SyncGitCommit
              scenario.CreateRepositoryByFullName scenario.NewFromBucket
              scenario.ToProtoManifestAndBlobs scenario.VisibilityFlagToVisibility
              scenario.connectErrorText scenario.Stderr_Write tt tt ""
              scenario.petapisAtC3
              {| reposync.registry := ["acme/petapis"]; reposync.calls := [] |} [])
    as (new & _ & Hnil & _).
  destruct (Hnil eq_refl) as (p & syncPoint & _ & _ & _ & Hwritten).
  by exists syncPoint.
Defined.

Lemma run_validates_visibility_witness :
  let flags := {| reposync.ErrorFormat := "text";
                  reposync.Modules := ["proto:buf.build/acme/petapis"];
                  reposync.Create := true;
                  reposync.CreateVisibility := "private";
                  reposync.AllBranches := false |} in
  reposync.Create flags = true ↔ reposync.CreateVisibility flags ≠ "".
Proof.
  intros flags.
  apply (run_validates_visibility scenario.quote scenario.formatHashes
           scenario.NewHashFromHex scenario.ErrObjectNotFound
           (ProtoManifest := string) (ProtoBlob := string)
           scenario.MakeSyncService scenario.MakeLabelService
           scenario.MakeRepositoryService scenario.ValidateErrorFormatFlag
           scenario.VisibilityFlagToVisibility (inl tt) (inl tt)
           scenario.ModuleIdentityForString id scenario.newSyncableModule
           scenario.newSyncer (fun _ _ => None)
           scenario.CreateRepositoryByFullName scenario.connectErrorText flags).
  discriminate.
Defined.
